(** * backend/llm_client.py: provider resolution, single dispatch, fan-out

    A shallow embedding of [query_model] and [query_models_parallel].

    - Python values coming back from [response.json()] are a [json] tree;
      Python [None] is [JNull].
    - Strings are Rocq strings (byte sequences).  [str.startswith] and the
      slice [s[len(p):]] act on code points in Python; on well-formed UTF-8
      they agree with the byte-level [String.prefix] and [string_drop].
    - The outside world (the HTTP transport behind [httpx.AsyncClient.post])
      is a state-passing function; every call is recorded in a trace next to
      the diagnostic lines that [print] emits.
    - [print] writes to a standard output whose encoding may lack characters
      beyond ASCII: a line that holds such a character is not written and
      [print] raises [UnicodeEncodeError].
    - [asyncio.gather] runs the coroutine objects in a completion order chosen
      by a schedule and hands back the results in the order of its
      arguments; the first task that raises decides the outcome, and its
      siblings keep running. *)

From Stdlib Require Import QArith.
From stdpp Require Import gmap strings list fin_maps.

#[local] Set Warnings "-register-all,-clear-no-such-hyp".


(** ** Strings *)

(** [s[n:]] for [0 <= n]. *)
Fixpoint string_drop (n : nat) (s : string) : string :=
  match n, s with
  | 0, _ => s
  | S _, EmptyString => EmptyString
  | S n', String _ s' => string_drop n' s'
  end.

(** [s.startswith(p)] *)
Definition startswith (s p : string) : bool := String.prefix p s.

(** ** Python values decoded from JSON *)

Inductive json : Type :=
| JNull
| JBool (b : bool)
| JInt (z : Z)
| JFloat (literal : string)
| JStr (s : string)
| JArr (items : list json)
| JObj (fields : list (string * json)).

(** Faults of class [Exception], as far as the dispatcher can meet them. *)
Inductive py_exception : Type :=
| ConnectError
| TimeoutException
| HTTPStatusError (status : Z)
| JSONDecodeError
| KeyError
| IndexError
| TypeError
| AttributeError
| UnicodeEncodeError
| OtherException (name : string).

(** What a [raise] carries: an instance of [Exception], or one of the
    signals that derive from [BaseException] only ([asyncio.CancelledError],
    [KeyboardInterrupt], [SystemExit]). *)
Inductive raised : Type :=
| Exc (e : py_exception)
| BaseOnly (name : string).

(** [isinstance(r, Exception)], the test behind [except Exception]. *)
Definition is_Exception (r : raised) : bool :=
  match r with
  | Exc _ => true
  | BaseOnly _ => false
  end.

(** Lookup in a decoded JSON object (a [dict] with string keys). *)
Fixpoint dict_lookup (k : string) (fields : list (string * json)) : option json :=
  match fields with
  | [] => None
  | (k', v) :: rest => if String.eqb k k' then Some v else dict_lookup k rest
  end.

(** [v[k]] for a string key. *)
Definition getitem_str (v : json) (k : string) : raised + json :=
  match v with
  | JObj fields =>
      match dict_lookup k fields with
      | Some x => inr x
      | None => inl (Exc KeyError)
      end
  | _ => inl (Exc TypeError)
  end.

(** [v[i]] for an integer literal [i >= 0]. *)
Definition getitem_int (v : json) (i : nat) : raised + json :=
  match v with
  | JArr items =>
      match items !! i with
      | Some x => inr x
      | None => inl (Exc IndexError)
      end
  | JStr s =>
      match String.get i s with
      | Some c => inr (JStr (String c EmptyString))
      | None => inl (Exc IndexError)
      end
  | JObj _ => inl (Exc KeyError)
  | _ => inl (Exc TypeError)
  end.

(** [v.get(k)]: only a [dict] has the method. *)
Definition dict_get (v : json) (k : string) : raised + json :=
  match v with
  | JObj fields =>
      match dict_lookup k fields with
      | Some x => inr x
      | None => inr JNull
      end
  | _ => inl (Exc AttributeError)
  end.

(** ** Provider registry *)

Record ProviderConfig : Type := {
  api_key : option string;
  api_url : string;
  model_prefix : string;
  header_auth_prefix : string
}.

(** A [dict] keeps its items in insertion order; [items()] walks them in
    that order. *)
Definition Registry : Type := list (string * ProviderConfig).

Definition DEEPSEEK_API_URL : string := "https://api.deepseek.com/chat/completions".
Definition OPENAI_API_URL : string := "https://api.openai.com/v1/chat/completions".

(** The four names imported from [.config] are parameters. *)
Definition PROVIDER_CONFIGS
    (OPENROUTER_API_KEY : option string) (OPENROUTER_API_URL : string)
    (DEEPSEEK_API_KEY OPENAI_API_KEY : option string) : Registry :=
  [ ("openrouter",
      {| api_key := OPENROUTER_API_KEY; api_url := OPENROUTER_API_URL;
         model_prefix := "openrouter::"; header_auth_prefix := "Bearer " |});
    ("deepseek",
      {| api_key := DEEPSEEK_API_KEY; api_url := DEEPSEEK_API_URL;
         model_prefix := "deepseek::"; header_auth_prefix := "Bearer " |});
    ("openai",
      {| api_key := OPENAI_API_KEY; api_url := OPENAI_API_URL;
         model_prefix := "openai::"; header_auth_prefix := "Bearer " |}) ].

(** [PROVIDER_CONFIGS.get(name)] *)
Fixpoint registry_get (name : string) (configs : Registry) : option ProviderConfig :=
  match configs with
  | [] => None
  | (p, c) :: rest => if String.eqb name p then Some c else registry_get name rest
  end.

(** The [for ... break] loop of [query_model]: the first provider, in
    registration order, whose prefix starts the identifier.  The result is
    [(provider_name, model_name)] as the loop leaves them. *)
Fixpoint scan_providers (configs : Registry) (model_identifier : string)
  : option string * string :=
  match configs with
  | [] => (None, model_identifier)
  | (provider, config) :: rest =>
      if startswith model_identifier (model_prefix config)
      then (Some provider,
            string_drop (String.length (model_prefix config)) model_identifier)
      else scan_providers rest model_identifier
  end.

(** Provider and model name once the default is applied:
    [if not provider_name: provider_name = "openrouter"], where [None] and
    the empty string are the falsy names. *)
Definition resolve (configs : Registry) (model_identifier : string)
  : string * string :=
  let '(provider_name, model_name) := scan_providers configs model_identifier in
  match provider_name with
  | None | Some EmptyString => ("openrouter", model_name)
  | Some provider => (provider, model_name)
  end.

(** ** Requests, responses and the observable state *)

(** One element of [messages]: a [dict] of strings, sent as it is. *)
Definition Message : Type := list (string * string).

(** [{"model": model_name, "messages": messages}] *)
Record Payload : Type := {
  model : string;
  messages : list Message
}.

(** The arguments of [client.post], with the timeout the client was built
    with. *)
Record Request : Type := {
  req_url : string;
  req_headers : list (string * string);
  req_json : Payload;
  req_timeout : Q
}.

(** An HTTP response: its status and its body as [response.json()] decodes
    it, [None] when the body is not JSON. *)
Record Response : Type := {
  status_code : Z;
  body : option json
}.

Inductive PostOutcome : Type :=
| PostRaises (r : raised)
| PostReturns (resp : Response).

(** The dict [query_model] returns on success. *)
Record NormalizedResult : Type := {
  content : json;
  reasoning_details : json
}.

(** The three lines [query_model] can print. *)
Inductive Diagnostic : Type :=
| UnknownProvider (model_identifier : string)
| KeyNotConfigured (provider_name model_identifier : string)
| QueryFailed (model_identifier provider_name url : string) (e : py_exception).

Inductive Event : Type :=
| EvPost (req : Request)
| EvPrint (d : Diagnostic).

Record State (World : Type) : Type := {
  world : World;
  trace : list Event
}.
Arguments world {World} _.
Arguments trace {World} _.

(** The text of the three lines; [exception_str e] stands for [str(e)],
    which the class of [e] and the library that raised it decide. *)
Definition render (exception_str : py_exception -> string) (d : Diagnostic)
  : string :=
  match d with
  | UnknownProvider model_identifier =>
      "Error: Unknown LLM provider for model identifier: " +:+ model_identifier
  | KeyNotConfigured provider_name model_identifier =>
      "Error: API key not configured for provider " +:+ provider_name
      +:+ " (model: " +:+ model_identifier +:+ ")"
  | QueryFailed model_identifier provider_name url e =>
      "Error querying model " +:+ model_identifier
      +:+ " (provider: " +:+ provider_name +:+ ", URL: " +:+ url +:+ "): "
      +:+ exception_str e
  end.

(** A byte below 128. *)
Definition is_ascii (c : Ascii.ascii) : bool :=
  match c with
  | Ascii.Ascii _ _ _ _ _ _ _ b7 => negb b7
  end.

(** Whether standard output can encode the text.  Every encoding has the
    ASCII characters; [stdout_encodes] tells which bytes beyond them it
    takes (all of them for UTF-8, none for ASCII). *)
Fixpoint can_write (stdout_encodes : Ascii.ascii -> bool) (text : string) : bool :=
  match text with
  | EmptyString => true
  | String c rest =>
      (is_ascii c || stdout_encodes c) && can_write stdout_encodes rest
  end.

(** Number of calls the transport has received. *)
Definition is_post (ev : Event) : bool :=
  match ev with
  | EvPost _ => true
  | EvPrint _ => false
  end.

Definition call_count {World} (st : State World) : nat :=
  length (filter (fun ev => is_post ev = true) (trace st)).

(** [timeout: float = 120.0] *)
Definition default_timeout : Q := 120 # 1.

(** [response.is_success], the test of [raise_for_status]. *)
Definition is_success (resp : Response) : bool :=
  (200 <=? status_code resp)%Z && (status_code resp <=? 299)%Z.

(** ** What the [try] block does with a response *)

Definition and_then {A B} (x : raised + A) (k : A -> raised + B) : raised + B :=
  match x with
  | inl r => inl r
  | inr a => k a
  end.

Notation "'let?' x := m 'in' k" := (and_then m (fun x => k))
  (at level 10, x name, m at level 99, k at level 200).

(** [response.raise_for_status()] *)
Definition raise_for_status (resp : Response) : raised + unit :=
  if is_success resp then inr tt
  else inl (Exc (HTTPStatusError (status_code resp))).

(** [response.json()] *)
Definition response_json (resp : Response) : raised + json :=
  match body resp with
  | Some data => inr data
  | None => inl (Exc JSONDecodeError)
  end.

(** The statements of the [try] block that follow the [post]. *)
Definition normalize_response (response : Response)
  : raised + option NormalizedResult :=
  let? _ := raise_for_status response in
  let? data := response_json response in
  let? choices := getitem_str data "choices" in
  let? choice := getitem_int choices 0 in
  let? message := getitem_str choice "message" in
  let? c := dict_get message "content" in
  let? rd := dict_get message "reasoning_details" in
  inr (Some {| content := c; reasoning_details := rd |}).

(** What the [try] block makes of the transport's answer. *)
Definition process (o : PostOutcome) : raised + option NormalizedResult :=
  match o with
  | PostRaises r => inl r
  | PostReturns resp => normalize_response resp
  end.

(** ** A state and fault monad for the code that runs against the world *)

Section Dispatcher.

Context {World : Type}.
Variable configs : Registry.
Variable transport : Request -> World -> PostOutcome * World.
Variable stdout_encodes : Ascii.ascii -> bool.
Variable exception_str : py_exception -> string.

Definition M (A : Type) : Type := State World -> (raised + A) * State World.

Definition ret {A} (a : A) : M A := fun st => (inr a, st).

Definition bind {A B} (m : M A) (k : A -> M B) : M B :=
  fun st =>
    match m st with
    | (inl r, st') => (inl r, st')
    | (inr a, st') => k a st'
    end.

(** A pure step that may raise. *)
Definition lift {A} (x : raised + A) : M A := fun st => (x, st).

(** [print(line)]: the line is written, or it cannot be encoded and
    nothing is written. *)
Definition print (d : Diagnostic) : M unit :=
  fun st =>
    if can_write stdout_encodes (render exception_str d)
    then (inr tt, {| world := world st; trace := trace st ++ [EvPrint d] |})
    else (inl (Exc UnicodeEncodeError), st).

(** [await client.post(...)] *)
Definition post (req : Request) : M Response :=
  fun st =>
    let '(o, w) := transport req (world st) in
    let st' := {| world := w; trace := trace st ++ [EvPost req] |} in
    match o with
    | PostRaises r => (inl r, st')
    | PostReturns resp => (inr resp, st')
    end.

(** [try: body except Exception as e: handler e] *)
Definition try_except_Exception {A} (body : M A) (handler : py_exception -> M A)
  : M A :=
  fun st =>
    match body st with
    | (inl (Exc e), st') => handler e st'
    | (inl (BaseOnly n), st') => (inl (BaseOnly n), st')
    | (inr a, st') => (inr a, st')
    end.

Notation "'do' x <- m ;; k" := (bind m (fun x => k))
  (at level 10, x name, m at level 99, k at level 200).

(** The body of the [try] block. *)
Definition request_and_normalize (req : Request) : M (option NormalizedResult) :=
  do response <- post req ;;
  lift (normalize_response response).

Definition query_model (model_identifier : string) (messages : list Message)
    (timeout : Q) : M (option NormalizedResult) :=
  let '(provider_name, model_name) := resolve configs model_identifier in
  match registry_get provider_name configs with
  | None =>
      do _ <- print (UnknownProvider model_identifier) ;;
      ret None
  | Some config =>
      match api_key config with
      | None | Some EmptyString =>
          do _ <- print (KeyNotConfigured provider_name model_identifier) ;;
          ret None
      | Some key =>
          let headers :=
            [ ("Authorization", header_auth_prefix config +:+ key);
              ("Content-Type", "application/json") ] in
          let payload := {| model := model_name; messages := messages |} in
          try_except_Exception
            (request_and_normalize
               {| req_url := api_url config; req_headers := headers;
                  req_json := payload; req_timeout := timeout |})
            (fun e =>
               do _ <- print (QueryFailed model_identifier provider_name
                             (api_url config) e) ;;
               ret None)
      end
  end.

(** *** Fan-out *)

(** A coroutine object: the call [query_model(model_id, messages)] with its
    arguments bound and its body not yet started. *)
Record Coroutine : Type := {
  co_model_identifier : string;
  co_messages : list Message;
  co_timeout : Q
}.

Definition run_coroutine (c : Coroutine) : M (option NormalizedResult) :=
  query_model (co_model_identifier c) (co_messages c) (co_timeout c).

(** [[query_model(model_id, messages) for model_id in model_identifiers]] *)
Definition make_tasks (model_identifiers : list string) (messages : list Message)
  : list Coroutine :=
  map (fun model_id =>
         {| co_model_identifier := model_id; co_messages := messages;
            co_timeout := default_timeout |})
      model_identifiers.

(** The event loop drives the pending tasks to completion one after the
    other.  Which one finishes next is outside the program: the head of
    [sched] picks it among those still pending.  The log pairs each task's
    position in the argument list with what it returned, in completion order.
    A dispatch shares no state with its siblings, so each one is run as a
    single step at the moment it completes.  The first task that raises
    decides the outcome of the wait ([return_exceptions=False]); the other
    tasks are not cancelled and run on, so the state paired with the outcome
    is the one reached when the last of them has finished. *)
Fixpoint run_to_completion (n : nat) (sched : list nat)
    (pending : list (nat * Coroutine))
    (log : list (nat * option NormalizedResult))
  : M (list (nat * option NormalizedResult)) :=
  fun st =>
    match n with
    | 0 => (inr log, st)
    | S n' =>
        let k := hd 0 sched `mod` length pending in
        match pending !! k with
        | None => (inr log, st)
        | Some (i, c) =>
            match run_coroutine c st with
            | (inr r, st1) =>
                run_to_completion n' (tl sched) (delete k pending)
                  (log ++ [(i, r)]) st1
            | (inl e, st1) =>
                (inl e,
                 (run_to_completion n' (tl sched) (delete k pending) log st1).2)
            end
        end
    end.

(** The list [gather] resolves to: one slot per argument, filled from the
    completion log. *)
Definition fill (slots : list (option NormalizedResult))
    (entry : nat * option NormalizedResult) : list (option NormalizedResult) :=
  <[entry.1 := entry.2]> slots.

Definition results_in_argument_order (n : nat)
    (log : list (nat * option NormalizedResult))
  : list (option NormalizedResult) :=
  foldl fill (replicate n None) log.

(** [await asyncio.gather] over the unpacked list [tasks]. *)
Definition gather (sched : list nat) (tasks : list Coroutine)
  : M (list (option NormalizedResult)) :=
  do log <- run_to_completion (length tasks) sched
              (zip (seq 0 (length tasks)) tasks) [] ;;
  ret (results_in_argument_order (length tasks) log).

(** [{k: v for k, v in pairs}]: a later pair overwrites an earlier one with
    the same key. *)
Definition put (d : gmap string (option NormalizedResult))
    (pair : string * option NormalizedResult)
  : gmap string (option NormalizedResult) :=
  <[pair.1 := pair.2]> d.

Definition dict_of_pairs (pairs : list (string * option NormalizedResult))
  : gmap string (option NormalizedResult) :=
  foldl put ∅ pairs.

Definition query_models_parallel (sched : list nat)
    (model_identifiers : list string) (messages : list Message)
  : M (gmap string (option NormalizedResult)) :=
  let tasks := make_tasks model_identifiers messages in
  do responses <- gather sched tasks ;;
  ret (dict_of_pairs (zip model_identifiers responses)).

End Dispatcher.

Arguments ret {World A} _ _.
Arguments lift {World A} _ _.

(** ** Notions the statements below are written with *)

(** The request [query_model] sends once the provider is resolved and its
    key is found; [None] when it returns before the [try]. *)
Definition request_for (configs : Registry) (model_identifier : string)
    (messages : list Message) (timeout : Q) : option Request :=
  let '(provider_name, model_name) := resolve configs model_identifier in
  match registry_get provider_name configs with
  | None => None
  | Some config =>
      match api_key config with
      | None | Some EmptyString => None
      | Some key =>
          Some {| req_url := api_url config;
                  req_headers :=
                    [ ("Authorization", header_auth_prefix config +:+ key);
                      ("Content-Type", "application/json") ];
                  req_json := {| model := model_name; messages := messages |};
                  req_timeout := timeout |}
      end
  end.

Definition after_post {World} (st : State World) (req : Request) (w : World)
  : State World :=
  {| world := w; trace := trace st ++ [EvPost req] |}.

Definition after_print {World} (st : State World) (d : Diagnostic) : State World :=
  {| world := world st; trace := trace st ++ [EvPrint d] |}.

(** What [print(line); return None] comes to from the state [st]. *)
Definition print_then_None {World} (stdout_encodes : Ascii.ascii -> bool)
    (exception_str : py_exception -> string) (st : State World) (d : Diagnostic)
  : (raised + option NormalizedResult) * State World :=
  if can_write stdout_encodes (render exception_str d)
  then (inr None, after_print st d)
  else (inl (Exc UnicodeEncodeError), st).

(** The line [query_model] prints when it has no request to send. *)
Definition line_without_request (configs : Registry) (model_identifier : string)
  : Diagnostic :=
  match registry_get (resolve configs model_identifier).1 configs with
  | None => UnknownProvider model_identifier
  | Some _ =>
      KeyNotConfigured (resolve configs model_identifier).1 model_identifier
  end.

(** Standard output takes every character. *)
Definition writes_everything (stdout_encodes : Ascii.ascii -> bool) : Prop :=
  forall c, stdout_encodes c = true.

(** The transport raises nothing outside [Exception]: no cancellation and
    no interrupt arrives while a request is in flight. *)
Definition raises_only_Exception {World}
    (transport : Request -> World -> PostOutcome * World) : Prop :=
  forall req w r w', transport req w = (PostRaises r, w') -> is_Exception r = true.

(** Every call recorded in [events] was made with timeout [t]. *)
Definition posts_have_timeout (t : Q) (events : list Event) : Prop :=
  Forall (fun ev => forall req, ev = EvPost req -> req_timeout req = t) events.

(** The completion log of the wait inside [query_models_parallel]. *)
Definition completion_log {World} (configs : Registry)
    (transport : Request -> World -> PostOutcome * World)
    (stdout_encodes : Ascii.ascii -> bool)
    (exception_str : py_exception -> string)
    (sched : list nat) (model_identifiers : list string)
    (messages : list Message) (st : State World)
  : raised + list (nat * option NormalizedResult) :=
  let tasks := make_tasks model_identifiers messages in
  (run_to_completion configs transport stdout_encodes exception_str
     (length tasks) sched (zip (seq 0 (length tasks)) tasks) [] st).1.

(** The items of the dict [d] whose key is [k]. *)
Definition items_with_key (k : string) (d : gmap string (option NormalizedResult))
  : list (string * option NormalizedResult) :=
  filter (fun item => item.1 = k) (map_to_list d).

(** Follows the spec's words: among the dispatches of [id], the one that
    completed last wrote the surviving value. *)
Definition last_completed (model_identifiers : list string)
    (log : list (nat * option NormalizedResult)) (id : string)
  : option (option NormalizedResult) :=
  snd <$> last (filter (fun entry => model_identifiers !! entry.1 = Some id) log).

Definition last_write_wins_by_completion_order {World} (configs : Registry)
    (transport : Request -> World -> PostOutcome * World)
    (stdout_encodes : Ascii.ascii -> bool)
    (exception_str : py_exception -> string) : Prop :=
  forall sched ids msgs (st : State World) log d st',
    completion_log configs transport stdout_encodes exception_str sched ids
      msgs st = inr log ->
    query_models_parallel configs transport stdout_encodes exception_str sched
      ids msgs st = (inr d, st') ->
    forall id, id ∈ ids -> d !! id = last_completed ids log id.

(** Number of diagnostic lines printed so far. *)
Definition is_print (ev : Event) : bool :=
  match ev with
  | EvPost _ => false
  | EvPrint _ => true
  end.

Definition print_count {World} (st : State World) : nat :=
  length (filter (fun ev => is_print ev = true) (trace st)).

(** The requests among the recorded events, in the order they were sent. *)
Definition posted (events : list Event) : list Request :=
  omap (fun ev => match ev with EvPost req => Some req | EvPrint _ => None end)
       events.

(** The request a pending coroutine will send, if any. *)
Definition request_of (configs : Registry) (p : nat * Coroutine)
  : option Request :=
  request_for configs (co_model_identifier p.2) (co_messages p.2)
    (co_timeout p.2).

(** Number of dispatches in a completion log that returned [None]. *)
Definition failures (log : list (nat * option NormalizedResult)) : nat :=
  length (filter (fun entry => entry.2 = None) log).

(** The events recorded after [st], up to [st']. *)
Definition new_events {World} (st st' : State World) : list Event :=
  drop (length (trace st)) (trace st').

(** The answer of the transport depends on the request alone. *)
Definition stateless {World}
    (transport : Request -> World -> PostOutcome * World) : Prop :=
  forall req w w', (transport req w).1 = (transport req w').1.

(** ** Two concrete transports and a registry with keys, for the examples *)

Module Examples.

Definition configs : Registry :=
  PROVIDER_CONFIGS (Some "sk-or") "https://openrouter.ai/api/v1/chat/completions"
                   None (Some "sk-oa").

Definition hi_body : json :=
  JObj [("choices", JArr [JObj [("message", JObj [("content", JStr "hi")])]])].

(** Answers every request with 200 and [hi_body]. *)
Definition transport_hi (req : Request) (w : unit) : PostOutcome * unit :=
  (PostReturns {| status_code := 200; body := Some hi_body |}, w).


Definition reply (n : nat) : json :=
  JObj [("choices",
         JArr [JObj [("message", JObj [("content", JInt (Z.of_nat n))])]])].

(** Counts the requests it has served and answers the n-th one with the
    number n; requests for the model "down" are refused. *)
Definition transport_counting (req : Request) (served : nat) : PostOutcome * nat :=
  if String.eqb (model (req_json req)) "down"
  then (PostRaises (Exc ConnectError), S served)
  else (PostReturns {| status_code := 200; body := Some (reply served) |},
        S served).

(** What [query_model] returns for the reply numbered [n]. *)
Definition answer (n : nat) : option NormalizedResult :=
  Some {| content := JInt (Z.of_nat n); reasoning_details := JNull |}.

Definition msgs : list Message := [[("role", "user"); ("content", "ping")]].

(** A standard output in UTF-8, and one in ASCII. *)
Definition utf8 (c : Ascii.ascii) : bool := true.

(** A text for each exception: the name of its class. *)
Definition exception_str (e : py_exception) : string :=
  match e with
  | ConnectError => "ConnectError"
  | TimeoutException => "TimeoutException"
  | HTTPStatusError _ => "HTTPStatusError"
  | JSONDecodeError => "JSONDecodeError"
  | KeyError => "KeyError"
  | IndexError => "IndexError"
  | TypeError => "TypeError"
  | AttributeError => "AttributeError"
  | UnicodeEncodeError => "UnicodeEncodeError"
  | OtherException name => name
  end.




(** The task is cancelled while the request is in flight. *)
Definition transport_cancelled (req : Request) (w : unit) : PostOutcome * unit :=
  (PostRaises (BaseOnly "CancelledError"), w).

(** Answers by the model named in the payload: "down" is unreachable, any
    other model echoes its own name. *)
Definition transport_by_model (req : Request) (w : unit) : PostOutcome * unit :=
  if String.eqb (model (req_json req)) "down"
  then (PostRaises (Exc ConnectError), w)
  else (PostReturns
          {| status_code := 200;
             body := Some (JObj [("choices",
                      JArr [JObj [("message",
                        JObj [("content", JStr (model (req_json req)))])]])]) |},
        w).

Definition start {World} (w : World) : State World :=
  {| world := w; trace := [] |}.

End Examples.


(** * Properties *)

(** ** Prefixes *)

Lemma startswith_app (p m : string) : startswith (p +:+ m) p = true.
Proof.
  unfold startswith. induction p as [|a p IH]; simpl.
  - by destruct m.
  - destruct (Ascii.ascii_dec a a); [exact IH | congruence].
Qed.

Lemma string_drop_app (p m : string) : string_drop (String.length p) (p +:+ m) = m.
Proof. induction p as [|a p IH]; simpl; [by destruct m | exact IH]. Qed.

Lemma startswith_split (s p : string) :
  startswith s p = true -> s = p +:+ string_drop (String.length p) s.
Proof.
  unfold startswith. revert s. induction p as [|a p IH]; intros s H; simpl in *.
  - by destruct s.
  - destruct s as [|b s]; [done |]. simpl in H.
    destruct (Ascii.ascii_dec a b) as [-> | _]; [| done].
    change (String b s = String b (p +:+ string_drop (String.length p) s)).
    f_equal. by apply IH.
Qed.

(** ** Provider resolution *)

Lemma scan_providers_first_match (before after : Registry) p cfg m :
  (forall q c, (q, c) ∈ before ->
     startswith (model_prefix cfg +:+ m) (model_prefix c) = false) ->
  scan_providers (before ++ (p, cfg) :: after) (model_prefix cfg +:+ m)
  = (Some p, m).
Proof.
  induction before as [|[q c] before IH]; intros Hno; simpl.
  - by rewrite startswith_app, string_drop_app.
  - rewrite (Hno q c) by (apply elem_of_cons; by left).
    apply IH. intros q' c' Hin. apply (Hno q' c'). apply elem_of_cons. by right.
Qed.

Lemma scan_providers_no_match (configs : Registry) model_identifier :
  (forall q c, (q, c) ∈ configs ->
     startswith model_identifier (model_prefix c) = false) ->
  scan_providers configs model_identifier = (None, model_identifier).
Proof.
  induction configs as [|[q c] configs IH]; intros Hno; simpl; [done |].
  rewrite (Hno q c) by (apply elem_of_cons; by left).
  apply IH. intros q' c' Hin. apply (Hno q' c'). apply elem_of_cons. by right.
Qed.

(** The loop stops at a provider whose prefix starts the identifier, and
    the model name is the identifier without that prefix. *)
Lemma scan_providers_some (configs : Registry) model_identifier p m :
  scan_providers configs model_identifier = (Some p, m) ->
  exists c, (p, c) ∈ configs /\ model_identifier = model_prefix c +:+ m.
Proof.
  induction configs as [|[q c] configs IH]; simpl; [done |].
  destruct (startswith model_identifier (model_prefix c)) eqn:Hs.
  - intros [= -> <-]. exists c. split; [apply elem_of_cons; by left |]. by apply startswith_split.
  - intros H. destruct (IH H) as (c' & Hin & ->). exists c'. split; [apply elem_of_cons; by right | done].
Qed.

(** C4: in any registry, an identifier made of a registered prefix followed
    by [m] resolves to the provider of the first entry, in registration
    order, whose prefix starts the identifier, and to the bare name [m];
    entries registered later do not matter, whether they match or not. *)
Theorem resolve_registered_prefix
    (configs before after : Registry) (p : string) (cfg : ProviderConfig)
    (m : string) :
  configs = (before ++ (p, cfg) :: after) ->
  p <> "" ->
  (forall q c, (q, c) ∈ before ->
     startswith (model_prefix cfg +:+ m) (model_prefix c) = false) ->
  resolve configs (model_prefix cfg +:+ m) = (p, m).
Proof.
  intros -> Hp Hno. unfold resolve.
  rewrite scan_providers_first_match by exact Hno.
  destruct p; [done | reflexivity].
Qed.

Lemma resolve_registered_prefix_witness :
  resolve (PROVIDER_CONFIGS None "https://openrouter.ai/api/v1/chat/completions"
                            (Some "sk-ds") None)
          "deepseek::deepseek-chat"
  = ("deepseek", "deepseek-chat").
Proof.
  apply (resolve_registered_prefix _
           [("openrouter",
             {| api_key := None;
                api_url := "https://openrouter.ai/api/v1/chat/completions";
                model_prefix := "openrouter::";
                header_auth_prefix := "Bearer " |})]
           [("openai",
             {| api_key := None; api_url := OPENAI_API_URL;
                model_prefix := "openai::"; header_auth_prefix := "Bearer " |})]
           "deepseek"
           {| api_key := Some "sk-ds"; api_url := DEEPSEEK_API_URL;
              model_prefix := "deepseek::"; header_auth_prefix := "Bearer " |}
           "deepseek-chat").
  - reflexivity.
  - discriminate.
  - intros q c Hin. apply list_elem_of_In in Hin. simpl in Hin.
    destruct Hin as [[= <- <-] | []]. reflexivity.
Defined.

(** The three providers of [PROVIDER_CONFIGS], whatever the keys are. *)
Lemma resolve_PROVIDER_CONFIGS k1 u1 k2 k3 (m : string) :
  let configs := PROVIDER_CONFIGS k1 u1 k2 k3 in
  resolve configs ("openrouter::" +:+ m) = ("openrouter", m)
  /\ resolve configs ("deepseek::" +:+ m) = ("deepseek", m)
  /\ resolve configs ("openai::" +:+ m) = ("openai", m).
Proof. intros configs. destruct m; repeat split; reflexivity. Qed.

(** ** Single dispatch *)

Section SingleDispatch.

Context {World : Type}.
Variable configs : Registry.
Variable transport : Request -> World -> PostOutcome * World.
Variable stdout_encodes : Ascii.ascii -> bool.
Variable exception_str : py_exception -> string.

Lemma request_and_normalize_eq req (st : State World) o w :
  transport req (world st) = (o, w) ->
  request_and_normalize transport req st = (process o, after_post st req w).
Proof.
  intros Ht. unfold request_and_normalize, bind, post, lift. rewrite Ht.
  by destruct o.
Qed.

Lemma print_then_None_eq (st : State World) d :
  bind (print stdout_encodes exception_str d) (fun _ => ret None) st
  = print_then_None stdout_encodes exception_str st d.
Proof.
  unfold bind, print, print_then_None, ret, after_print.
  by destruct (can_write stdout_encodes (render exception_str d)).
Qed.

(** Without a request to send, the printing of one line is all that
    happens. *)
Lemma query_model_without_request id msgs t (st : State World) :
  request_for configs id msgs t = None ->
  exists d, query_model configs transport stdout_encodes exception_str
      id msgs t st
            = print_then_None stdout_encodes exception_str st d.
Proof.
  unfold request_for, query_model.
  destruct (resolve configs id) as [p m].
  destruct (registry_get p configs) as [cfg|];
    [| intros _; eexists; apply print_then_None_eq].
  destruct (api_key cfg) as [[|a k]|]; [| done |];
    intros _; eexists; apply print_then_None_eq.
Qed.

Lemma query_model_without_request_line id msgs t (st : State World) :
  request_for configs id msgs t = None ->
  query_model configs transport stdout_encodes exception_str id msgs t st
  = print_then_None stdout_encodes exception_str st
      (line_without_request configs id).
Proof.
  unfold request_for, query_model, line_without_request.
  destruct (resolve configs id) as [p m]. simpl.
  destruct (registry_get p configs) as [cfg|];
    [| intros _; apply print_then_None_eq].
  destruct (api_key cfg) as [[|a k]|]; [| done |];
    intros _; apply print_then_None_eq.
Qed.

(** With a request to send, the result is decided by what the [try] block
    makes of the transport's answer. *)
Lemma query_model_with_request id msgs t (st : State World) req o w :
  request_for configs id msgs t = Some req ->
  transport req (world st) = (o, w) ->
  query_model configs transport stdout_encodes exception_str id msgs t st
  = match process o with
    | inr res => (inr res, after_post st req w)
    | inl (Exc e) =>
        print_then_None stdout_encodes exception_str (after_post st req w)
          (QueryFailed id (resolve configs id).1 (req_url req) e)
    | inl (BaseOnly n) => (inl (BaseOnly n), after_post st req w)
    end.
Proof.
  unfold request_for, query_model.
  destruct (resolve configs id) as [p m].
  destruct (registry_get p configs) as [cfg|]; [| done].
  destruct (api_key cfg) as [[|a k]|]; [done | | done].
  intros [= <-] Ht. unfold try_except_Exception.
  rewrite (request_and_normalize_eq _ _ _ _ Ht).
  destruct (process o) as [[e|n]|res]; [| done | done].
  apply print_then_None_eq.
Qed.

End SingleDispatch.


Lemma normalize_response_not_json resp :
  is_success resp = true -> body resp = None ->
  normalize_response resp = inl (Exc JSONDecodeError).
Proof.
  intros H Hb. unfold normalize_response, raise_for_status, response_json.
  by rewrite H, Hb.
Qed.


Lemma normalize_response_message resp data message :
  is_success resp = true -> body resp = Some data ->
  (let? choices := getitem_str data "choices" in
   let? choice := getitem_int choices 0 in
   getitem_str choice "message") = inr message ->
  normalize_response resp
  = let? c := dict_get message "content" in
    let? rd := dict_get message "reasoning_details" in
    inr (Some {| content := c; reasoning_details := rd |}).
Proof.
  intros H Hb Hp. unfold normalize_response, raise_for_status, response_json.
  rewrite H, Hb. simpl.
  destruct (getitem_str data "choices") as [r1|choices]; simpl in *;
    [by simplify_eq |].
  destruct (getitem_int choices 0) as [r2|choice]; simpl in *;
    [by simplify_eq |].
  by destruct (getitem_str choice "message") as [r3|message']; simplify_eq/=.
Qed.

(** Nothing in the processing of a response raises outside [Exception]. *)
Lemma normalize_response_raises_Exception resp r :
  normalize_response resp = inl r -> is_Exception r = true.
Proof.
  unfold normalize_response, raise_for_status, response_json.
  destruct (is_success resp); simpl; [| by intros [= <-]].
  destruct (body resp) as [data|]; simpl; [| by intros [= <-]].
  destruct data; simpl; try by intros [= <-].
  destruct (dict_lookup "choices" fields) as [choices|]; simpl; [| by intros [= <-]].
  assert (Hm : forall choice,
    (let? message := getitem_str choice "message" in
     let? c := dict_get message "content" in
     let? rd := dict_get message "reasoning_details" in
     inr (Some {| content := c; reasoning_details := rd |})) = inl r ->
    is_Exception r = true).
  { intros choice. destruct choice; simpl; try by intros [= <-].
    destruct (dict_lookup "message" fields0) as [message|]; simpl;
      [| by intros [= <-]].
    destruct message; simpl; try by intros [= <-].
    by destruct (dict_lookup "content" fields1),
                (dict_lookup "reasoning_details" fields1). }
  destruct choices; simpl; try by intros [= <-].
  - destruct (String.get 0 s); simpl; by intros [= <-].
  - destruct (items !! 0); simpl; [apply Hm | by intros [= <-]].
Qed.

(** The model name in the payload is the one resolution gives. *)
Lemma request_for_model configs id msgs t req :
  request_for configs id msgs t = Some req ->
  model (req_json req) = (resolve configs id).2
  /\ messages (req_json req) = msgs
  /\ req_timeout req = t.
Proof.
  unfold request_for. destruct (resolve configs id) as [p m].
  destruct (registry_get p configs) as [cfg|]; [| done].
  by destruct (api_key cfg) as [[|a k]|]; [done | intros [= <-] | done].
Qed.

(** C5: an identifier that starts with no registered prefix resolves to
    the provider "openrouter" and keeps its full text as model name, and
    that text is the model name of the request sent for it. *)
Theorem resolve_default (configs : Registry) (model_identifier : string) :
  (forall q c, (q, c) ∈ configs ->
     startswith model_identifier (model_prefix c) = false) ->
  resolve configs model_identifier = ("openrouter", model_identifier)
  /\ forall msgs t req,
       request_for configs model_identifier msgs t = Some req ->
       model (req_json req) = model_identifier.
Proof.
  intros Hno.
  assert (Hr : resolve configs model_identifier = ("openrouter", model_identifier)).
  { unfold resolve. by rewrite scan_providers_no_match. }
  split; [exact Hr |].
  intros msgs t req Hreq.
  destruct (request_for_model _ _ _ _ _ Hreq) as (-> & _). by rewrite Hr.
Qed.

Lemma resolve_default_witness :
  resolve Examples.configs "gpt-4o" = ("openrouter", "gpt-4o")
  /\ forall msgs t req,
       request_for Examples.configs "gpt-4o" msgs t = Some req ->
       model (req_json req) = "gpt-4o".
Proof.
  apply (resolve_default Examples.configs "gpt-4o").
  intros q c Hin. apply list_elem_of_In in Hin. simpl in Hin.
  destruct Hin as [[= <- <-] | [[= <- <-] | [[= <- <-] | []]]]; reflexivity.
Defined.





(** A signal outside [Exception] raised by the transport passes through. *)
Lemma query_model_passes_BaseOnly {World} configs
    (transport : Request -> World -> PostOutcome * World)
    (stdout_encodes : Ascii.ascii -> bool)
    (exception_str : py_exception -> string)
    id msgs t (st : State World) req w n :
  request_for configs id msgs t = Some req ->
  transport req (world st) = (PostRaises (BaseOnly n), w) ->
  (query_model configs transport stdout_encodes exception_str
      id msgs t st).1 = inl (BaseOnly n).
Proof.
  intros Hreq Ht. by rewrite (query_model_with_request _ _ _ _ _ _ _ _ _ _ _ Hreq Ht).
Qed.




(** C6: a 2xx response whose body holds an object at
    [choices[0].message] makes [query_model] return the dict with that
    object's [content] and [reasoning_details], each [None] when the key is
    missing. *)
Theorem query_model_normalizes {World} configs
    (transport : Request -> World -> PostOutcome * World)
    (stdout_encodes : Ascii.ascii -> bool)
    (exception_str : py_exception -> string)
    id msgs t (st : State World) req resp w data fields :
  request_for configs id msgs t = Some req ->
  transport req (world st) = (PostReturns resp, w) ->
  is_success resp = true ->
  body resp = Some data ->
  (let? choices := getitem_str data "choices" in
   let? choice := getitem_int choices 0 in
   getitem_str choice "message") = inr (JObj fields) ->
  (query_model configs transport stdout_encodes exception_str id msgs t st).1
  = inr (Some {| content := default JNull (dict_lookup "content" fields);
                 reasoning_details :=
                   default JNull (dict_lookup "reasoning_details" fields) |}).
Proof.
  intros Hreq Ht Hs Hb Hm.
  rewrite (query_model_with_request _ _ _ _ _ _ _ _ _ _ _ Hreq Ht). simpl.
  rewrite (normalize_response_message _ _ _ Hs Hb Hm). simpl.
  by destruct (dict_lookup "content" fields),
              (dict_lookup "reasoning_details" fields).
Qed.

Lemma query_model_normalizes_witness :
  (query_model Examples.configs Examples.transport_hi
      Examples.utf8 Examples.exception_str "openrouter::a"
     Examples.msgs default_timeout (Examples.start tt)).1
  = inr (Some {| content := JStr "hi"; reasoning_details := JNull |}).
Proof.
  eapply (query_model_normalizes Examples.configs Examples.transport_hi
      Examples.utf8 Examples.exception_str
            "openrouter::a" Examples.msgs default_timeout (Examples.start tt)
            _ _ _ Examples.hi_body [("content", JStr "hi")]).
  - reflexivity.
  - reflexivity.
  - reflexivity.
  - reflexivity.
  - reflexivity.
Defined.

(** A [message] that is not an object has no [get]: the [AttributeError] is
    caught like any other fault. *)
Lemma normalize_response_message_not_object resp data message :
  is_success resp = true -> body resp = Some data ->
  (let? choices := getitem_str data "choices" in
   let? choice := getitem_int choices 0 in
   getitem_str choice "message") = inr message ->
  (forall fields, message <> JObj fields) ->
  normalize_response resp = inl (Exc AttributeError).
Proof.
  intros Hs Hb Hm Hno. rewrite (normalize_response_message _ _ _ Hs Hb Hm).
  destruct message; try done. by destruct (Hno fields).
Qed.

(** ** The dict comprehension and the result list of [gather] *)

Section Collecting.

Implicit Types (pairs : list (string * option NormalizedResult)).
Implicit Types (d : gmap string (option NormalizedResult)).
Implicit Types (log : list (nat * option NormalizedResult)).
Implicit Types (slots : list (option NormalizedResult)).

Lemma foldl_put_dom pairs d :
  dom (foldl put d pairs) = dom d ∪ list_to_set pairs.*1.
Proof.
  revert d. induction pairs as [|[k v] pairs IH]; intros d; simpl.
  - set_solver.
  - rewrite IH. unfold put. rewrite dom_insert_L. set_solver.
Qed.

Lemma foldl_put_other pairs d k :
  k ∉ pairs.*1 -> foldl put d pairs !! k = d !! k.
Proof.
  revert d. induction pairs as [|[k' v] pairs IH]; intros d Hk; simpl; [done |].
  simpl in Hk. apply not_elem_of_cons in Hk as [Hne Hk].
  rewrite IH by done. unfold put. by rewrite lookup_insert_ne.
Qed.

Lemma dict_of_pairs_dom pairs :
  dom (dict_of_pairs pairs) = list_to_set pairs.*1.
Proof.
  unfold dict_of_pairs. rewrite foldl_put_dom. set_solver.
Qed.

(** The pair that comes last among those with key [k] decides [d[k]]. *)
Lemma dict_of_pairs_last pairs1 k v pairs2 :
  k ∉ pairs2.*1 ->
  dict_of_pairs (pairs1 ++ (k, v) :: pairs2) !! k = Some v.
Proof.
  intros Hk. unfold dict_of_pairs.
  rewrite foldl_app. simpl. rewrite foldl_put_other by done.
  unfold put at 1. by rewrite lookup_insert_eq.
Qed.

Lemma filter_key_absent pairs k :
  k ∉ pairs.*1 -> filter (fun item => item.1 = k) pairs = [].
Proof.
  induction pairs as [|[k' v] pairs IH]; intros Hk; [done |].
  simpl in Hk. apply not_elem_of_cons in Hk as [Hne Hk].
  rewrite filter_cons_False by (simpl; congruence). by apply IH.
Qed.

Lemma filter_key_unique pairs k v :
  NoDup pairs.*1 -> (k, v) ∈ pairs ->
  filter (fun item => item.1 = k) pairs = [(k, v)].
Proof.
  induction pairs as [|[k' v'] pairs IH]; intros Hnd Hin.
  - by apply elem_of_nil in Hin.
  - simpl in Hnd. apply NoDup_cons in Hnd as [Hk' Hnd].
    apply elem_of_cons in Hin as [[= <- <-] | Hin].
    + rewrite filter_cons_True by done. f_equal. by apply filter_key_absent.
    + assert (k <> k').
      { intros <-. apply Hk'. by apply (list_elem_of_fmap_2 fst) in Hin. }
      rewrite filter_cons_False by (simpl; congruence). by apply IH.
Qed.

(** A key that is present has one item. *)
Lemma items_with_key_lookup d k v :
  d !! k = Some v -> items_with_key k d = [(k, v)].
Proof.
  intros Hl. unfold items_with_key. apply filter_key_unique.
  - apply NoDup_fst_map_to_list.
  - by apply elem_of_map_to_list.
Qed.

Lemma foldl_fill_length log slots :
  length (foldl fill slots log) = length slots.
Proof.
  revert slots. induction log as [|[i r] log IH]; intros slots; simpl; [done |].
  rewrite IH. unfold fill. by rewrite length_insert.
Qed.

Lemma foldl_fill_other log slots i :
  i ∉ log.*1 -> foldl fill slots log !! i = slots !! i.
Proof.
  revert slots. induction log as [|[j r] log IH]; intros slots Hi; simpl; [done |].
  simpl in Hi. apply not_elem_of_cons in Hi as [Hne Hi].
  rewrite IH by done. unfold fill. by rewrite list_lookup_insert_ne.
Qed.

Lemma foldl_fill_lookup log slots i r :
  NoDup log.*1 -> (i, r) ∈ log -> i < length slots ->
  foldl fill slots log !! i = Some r.
Proof.
  revert slots. induction log as [|[j r'] log IH]; intros slots Hnd Hin Hlt.
  - by apply elem_of_nil in Hin.
  - simpl in *. apply NoDup_cons in Hnd as [Hj Hnd].
    apply elem_of_cons in Hin as [[= <- <-] | Hin].
    + rewrite foldl_fill_other by done. unfold fill.
      by apply list_lookup_insert_eq.
    + apply IH; try done. unfold fill. by rewrite length_insert.
Qed.

Lemma results_in_argument_order_length n log :
  length (results_in_argument_order n log) = n.
Proof.
  unfold results_in_argument_order.
  by rewrite foldl_fill_length, length_replicate.
Qed.

(** Slot [i] holds what task [i] returned, whenever it completed. *)
Lemma results_in_argument_order_lookup n log i r :
  NoDup log.*1 -> (i, r) ∈ log -> i < n ->
  results_in_argument_order n log !! i = Some r.
Proof.
  intros Hnd Hin Hlt. unfold results_in_argument_order.
  apply foldl_fill_lookup; try done. by rewrite length_replicate.
Qed.

End Collecting.

(** ** Fan-out *)

Lemma can_write_all stdout_encodes text :
  writes_everything stdout_encodes -> can_write stdout_encodes text = true.
Proof.
  intros Hall. induction text as [|c text IH]; [done |]. simpl.
  by rewrite Hall, orb_true_r, IH.
Qed.

Section FanOut.

Context {World : Type}.
Variable configs : Registry.
Variable transport : Request -> World -> PostOutcome * World.
Variable stdout_encodes : Ascii.ascii -> bool.
Variable exception_str : py_exception -> string.

Abbreviation query_model' :=
  (query_model configs transport stdout_encodes exception_str).
Abbreviation run_to_completion' :=
  (run_to_completion configs transport stdout_encodes exception_str).

(** With a transport that raises nothing outside [Exception], what leaves
    a dispatch is the [UnicodeEncodeError] of a [print]. *)
Lemma query_model_raises_from_print id msgs t (st : State World) r :
  raises_only_Exception transport ->
  (query_model' id msgs t st).1 = inl r ->
  r = Exc UnicodeEncodeError.
Proof.
  intros Hex. destruct (request_for configs id msgs t) as [req|] eqn:Hreq.
  - destruct (transport req (world st)) as [o w] eqn:Ht.
    rewrite (query_model_with_request _ _ _ _ _ _ _ _ _ _ _ Hreq Ht).
    destruct (process o) as [[e|n]|res] eqn:Hp; [| | done].
    + unfold print_then_None. destruct (can_write _ _); [done |].
      by intros [= <-].
    + destruct o as [r'|resp]; simpl in Hp.
      * injection Hp as ->. by apply Hex in Ht.
      * by apply normalize_response_raises_Exception in Hp.
  - destruct (query_model_without_request configs transport stdout_encodes
                exception_str _ _ _ st Hreq) as [d ->].
    unfold print_then_None. destruct (can_write _ _); [done |].
    by intros [= <-].
Qed.

(** With such a transport and a standard output that takes every
    character, a dispatch returns. *)
Lemma query_model_returns id msgs t (st : State World) :
  raises_only_Exception transport ->
  writes_everything stdout_encodes ->
  exists res st', query_model' id msgs t st = (inr res, st').
Proof.
  intros Hex Hall.
  destruct (query_model' id msgs t st) as [[r|res] st'] eqn:Hq; [| by eauto].
  exfalso.
  pose proof (query_model_raises_from_print id msgs t st r Hex) as Hr.
  rewrite Hq in Hr. specialize (Hr eq_refl). subst r. revert Hq.
  destruct (request_for configs id msgs t) as [req|] eqn:Hreq.
  - destruct (transport req (world st)) as [o w] eqn:Ht.
    rewrite (query_model_with_request _ _ _ _ _ _ _ _ _ _ _ Hreq Ht).
    destruct (process o) as [[e|n]|res]; [| done | done].
    unfold print_then_None. by rewrite can_write_all.
  - destruct (query_model_without_request configs transport stdout_encodes
                exception_str _ _ _ st Hreq) as [d ->].
    unfold print_then_None. by rewrite can_write_all.
Qed.

Lemma query_model_trace id msgs t (st : State World) :
  exists new,
    trace (query_model' id msgs t st).2 = trace st ++ new
    /\ posts_have_timeout t new.
Proof.
  destruct (request_for configs id msgs t) as [req|] eqn:Hreq.
  - destruct (transport req (world st)) as [o w] eqn:Ht.
    rewrite (query_model_with_request _ _ _ _ _ _ _ _ _ _ _ Hreq Ht).
    destruct (request_for_model _ _ _ _ _ Hreq) as (_ & _ & Hto).
    destruct (process o) as [[e|n]|res]; simpl.
    + unfold print_then_None. destruct (can_write _ _); simpl.
      * exists [EvPost req;
                EvPrint (QueryFailed id (resolve configs id).1 (req_url req) e)].
        split; [by rewrite <- app_assoc |].
        repeat constructor; by intros ? [= <-].
      * exists [EvPost req]. split; [done |].
        repeat constructor; by intros ? [= <-].
    + exists [EvPost req]. split; [done |]. repeat constructor; by intros ? [= <-].
    + exists [EvPost req]. split; [done |]. repeat constructor; by intros ? [= <-].
  - destruct (query_model_without_request configs transport stdout_encodes
                exception_str _ _ _ st Hreq) as [d ->].
    unfold print_then_None. destruct (can_write _ _); simpl.
    + exists [EvPrint d]. split; [done |]. by repeat constructor.
    + exists []. split; [by rewrite app_nil_r | constructor].
Qed.

(** When every pending task returns, so does the wait. *)
Lemma run_to_completion_returns n :
  forall sched pending log (st : State World),
    (forall p st0, p ∈ pending ->
       exists r st1, run_coroutine configs transport stdout_encodes
                       exception_str p.2 st0 = (inr r, st1)) ->
    exists log' st',
      run_to_completion' n sched pending log st = (inr log', st').
Proof.
  induction n as [|n IH]; intros sched pending log st Hret; [by eauto |].
  simpl. set (k := hd 0 sched `mod` length pending).
  destruct (pending !! k) as [[i c]|] eqn:Hpk; [| by eauto].
  destruct (Hret (i, c) st) as (r & st1 & Hc);
    [by eapply list_elem_of_lookup_2 |].
  simpl in Hc. rewrite Hc. apply IH.
  intros p st0 Hp. apply Hret. by apply list_elem_of_delete_inv in Hp.
Qed.

(** A wait that returns has let every pending task complete, once. *)
Lemma run_to_completion_log_perm n :
  forall sched pending log (st : State World) log' st',
    length pending = n ->
    run_to_completion' n sched pending log st = (inr log', st') ->
    log'.*1 ≡ₚ log.*1 ++ pending.*1.
Proof.
  induction n as [|n IH]; intros sched pending log st log' st' Hlen Hrun.
  - destruct pending; [| done]. simpl in Hrun. injection Hrun as <- _.
    by rewrite app_nil_r.
  - simpl in Hrun. set (k := hd 0 sched `mod` length pending) in Hrun.
    assert (Hk : k < length pending).
    { subst k. apply Nat.mod_upper_bound. lia. }
    destruct (pending !! k) as [[i c]|] eqn:Hpk;
      [| apply lookup_ge_None_1 in Hpk; lia].
    destruct (run_coroutine _ _ _ _ c st) as [[e|r] st1]; [done |].
    apply IH in Hrun; [| rewrite length_delete by eauto; lia].
    rewrite Hrun, fmap_app. simpl.
    rewrite (delete_Permutation pending k (i, c)) at 2 by done.
    rewrite fmap_cons. simpl. by rewrite <- app_assoc.
Qed.


Lemma make_tasks_length ids msgs : length (make_tasks ids msgs) = length ids.
Proof. unfold make_tasks. by rewrite length_map. Qed.

(** What a returned dict was built from. *)
Lemma query_models_parallel_inv sched ids msgs (st : State World) d st' :
  query_models_parallel configs transport stdout_encodes exception_str sched
    ids msgs st = (inr d, st') ->
  exists log,
    run_to_completion' (length ids) sched
      (zip (seq 0 (length ids)) (make_tasks ids msgs)) [] st = (inr log, st')
    /\ log.*1 ≡ₚ seq 0 (length ids)
    /\ d = dict_of_pairs
             (zip ids (results_in_argument_order (length ids) log)).
Proof.
  unfold query_models_parallel, gather, bind. rewrite make_tasks_length.
  destruct (run_to_completion' _ _ _ _ _) as [[r|log] st1] eqn:Hrun; [done |].
  unfold ret. intros [= <- <-]. exists log. split; [done |]. split; [| done].
  apply run_to_completion_log_perm in Hrun.
  - rewrite Hrun. simpl. rewrite fst_zip; [done |].
    by rewrite length_seq, make_tasks_length.
  - by rewrite length_zip, length_seq, make_tasks_length, Nat.min_id.
Qed.

(** When every dispatch of the list returns, so does the fan-out. *)
Lemma query_models_parallel_returns sched ids msgs (st : State World) :
  (forall id st0, id ∈ ids ->
     exists r st1, query_model' id msgs default_timeout st0 = (inr r, st1)) ->
  exists d st',
    query_models_parallel configs transport stdout_encodes exception_str sched
      ids msgs st = (inr d, st').
Proof.
  intros Hret. unfold query_models_parallel, gather, bind.
  destruct (run_to_completion_returns (length (make_tasks ids msgs)) sched
              (zip (seq 0 (length (make_tasks ids msgs))) (make_tasks ids msgs))
              [] st) as (log & st' & ->); [| by eauto].
  intros [i c] st0 Hin. apply elem_of_zip_r in Hin.
  unfold make_tasks in Hin.
  apply list_elem_of_In, in_map_iff in Hin as (id & <- & Hid).
  apply Hret. by apply list_elem_of_In.
Qed.

End FanOut.

(** Whatever the transport does, a dict that is returned has the input
    identifiers as its keys. *)
Lemma query_models_parallel_keys_of_result {World} configs
    (transport : Request -> World -> PostOutcome * World)
    (stdout_encodes : Ascii.ascii -> bool)
    (exception_str : py_exception -> string)
    sched (ids : list string) msgs (st : State World) d st' :
  query_models_parallel configs transport stdout_encodes exception_str sched
    ids msgs st = (inr d, st') ->
  dom d = list_to_set ids.
Proof.
  intros Hq.
  destruct (query_models_parallel_inv _ _ _ _ _ _ _ _ _ _ Hq)
    as (log & _ & _ & ->).
  rewrite dict_of_pairs_dom, fst_zip; [done |].
  by rewrite results_in_argument_order_length.
Qed.

(** C2: a dict that [query_models_parallel] returns has the set of the
    identifiers it was given as its key set, whatever the schedule and
    whatever each dispatch returned; and it does return one when the
    transport raises nothing outside [Exception] and standard output takes
    every character. *)
Theorem query_models_parallel_keys {World} configs
    (transport : Request -> World -> PostOutcome * World)
    (stdout_encodes : Ascii.ascii -> bool)
    (exception_str : py_exception -> string)
    sched (ids : list string) msgs (st : State World) :
  (forall d st',
     query_models_parallel configs transport stdout_encodes exception_str
       sched ids msgs st = (inr d, st') ->
     dom d = list_to_set ids)
  /\ (raises_only_Exception transport ->
      writes_everything stdout_encodes ->
      exists d st',
        query_models_parallel configs transport stdout_encodes exception_str
          sched ids msgs st = (inr d, st')
        /\ dom d = list_to_set ids).
Proof.
  assert (Hkeys : forall d st',
    query_models_parallel configs transport stdout_encodes exception_str
      sched ids msgs st = (inr d, st') ->
    dom d = list_to_set ids).
  { intros d st' Hq.
    destruct (query_models_parallel_inv _ _ _ _ _ _ _ _ _ _ Hq)
      as (log & _ & _ & ->).
    rewrite dict_of_pairs_dom, fst_zip; [done |].
    by rewrite results_in_argument_order_length. }
  split; [exact Hkeys |].
  intros Hex Hall.
  destruct (query_models_parallel_returns configs transport stdout_encodes
              exception_str sched ids msgs st) as (d & st' & Hq).
  { intros id st0 _. by apply query_model_returns. }
  exists d, st'. split; [exact Hq | by eapply Hkeys].
Qed.

Lemma query_models_parallel_keys_witness :
  (forall d st',
     query_models_parallel Examples.configs Examples.transport_counting
       Examples.utf8 Examples.exception_str [1; 0]
       ["a"; "down"; "deepseek::b"] Examples.msgs (Examples.start 0)
     = (inr d, st') ->
     dom d = list_to_set ["a"; "down"; "deepseek::b"])
  /\ exists d st',
       query_models_parallel Examples.configs Examples.transport_counting
         Examples.utf8 Examples.exception_str [1; 0]
         ["a"; "down"; "deepseek::b"] Examples.msgs (Examples.start 0)
       = (inr d, st')
       /\ dom d = list_to_set ["a"; "down"; "deepseek::b"].
Proof.
  destruct (query_models_parallel_keys Examples.configs
              Examples.transport_counting Examples.utf8 Examples.exception_str
              [1; 0] ["a"; "down"; "deepseek::b"] Examples.msgs
              (Examples.start 0)) as [Hkeys Hreturns].
  split; [exact Hkeys |]. apply Hreturns.
  - intros req w r w'. unfold Examples.transport_counting.
    destruct (String.eqb _ _); intros [= <- _]; reflexivity.
  - intros c. reflexivity.
Defined.

(** C7, as the spec words it, fails.  Two dispatches of "a"; the second
    one in the list completes first and is answered 0, the first one
    completes last and is answered 1.  The dict holds the answer 0 of the
    dispatch that stands last in the list, not the answer 1 of the dispatch
    that completed last. *)
Lemma last_write_by_completion_order_counterexample :
  exists log d st',
    completion_log Examples.configs Examples.transport_counting
        Examples.utf8 Examples.exception_str [1; 0]
      ["a"; "a"] Examples.msgs (Examples.start 0) = inr log
    /\ query_models_parallel Examples.configs Examples.transport_counting
        Examples.utf8 Examples.exception_str [1; 0]
         ["a"; "a"] Examples.msgs (Examples.start 0) = (inr d, st')
    /\ log = [(1, Examples.answer 0); (0, Examples.answer 1)]
    /\ d !! "a" = Some (Examples.answer 0)
    /\ last_completed ["a"; "a"] log "a" = Some (Examples.answer 1)
    /\ d !! "a" <> last_completed ["a"; "a"] log "a".
Proof.
  eexists _, _, _.
  split; [reflexivity |]. split; [reflexivity |].
  split; [reflexivity |]. split; [reflexivity |].
  split; [reflexivity |]. vm_compute. discriminate.
Qed.

(** So the property does not hold of [query_models_parallel]. *)
Lemma last_write_wins_by_completion_order_fails :
  ~ last_write_wins_by_completion_order Examples.configs
      Examples.transport_counting Examples.utf8
      Examples.exception_str.
Proof.
  intros Hclaim.
  specialize (Hclaim [1; 0] ["a"; "a"] Examples.msgs (Examples.start 0)
                _ _ _ eq_refl eq_refl "a").
  assert (Hin : "a" ∈ ["a"; "a"]) by (apply elem_of_cons; by left).
  specialize (Hclaim Hin). vm_compute in Hclaim. discriminate Hclaim.
Qed.

(** C7, amended: in a dict that [query_models_parallel] returns, an
    identifier that occurs in the list, however often, has one entry, and
    its value is what the dispatch at the last position of that identifier in
    the list returned, whatever the completion order. *)
Theorem query_models_parallel_last_position {World} configs
    (transport : Request -> World -> PostOutcome * World)
    (stdout_encodes : Ascii.ascii -> bool)
    (exception_str : py_exception -> string)
    sched (pre : list string) (id : string) (post : list string) msgs
    (st : State World) d st' :
  id ∉ post ->
  query_models_parallel configs transport stdout_encodes exception_str sched
    (pre ++ id :: post) msgs st = (inr d, st') ->
  exists log r,
    completion_log configs transport stdout_encodes exception_str sched
      (pre ++ id :: post) msgs st = inr log
    /\ log.*1 ≡ₚ seq 0 (length (pre ++ id :: post))
    /\ (length pre, r) ∈ log
    /\ d !! id = Some r
    /\ items_with_key id d = [(id, r)].
Proof.
  intros Hpost Hq. set (ids := pre ++ id :: post) in *.
  destruct (query_models_parallel_inv _ _ _ _ _ _ _ _ _ _ Hq)
    as (log & Hrun & Hperm & ->).
  assert (Hlt : length pre < length ids).
  { subst ids. rewrite length_app. simpl. lia. }
  assert (Hi : length pre ∈ log.*1).
  { rewrite Hperm. apply elem_of_seq. lia. }
  apply list_elem_of_fmap in Hi as ([i r] & Hi & Hin). simpl in Hi. subst i.
  assert (Hnd : NoDup log.*1) by (rewrite Hperm; apply NoDup_seq).
  pose proof (results_in_argument_order_lookup (length ids) log _ _ Hnd Hin Hlt)
    as Hr.
  exists log, r.
  split; [by unfold completion_log; rewrite make_tasks_length, Hrun |].
  split; [done |]. split; [done |].
  assert (Hd : dict_of_pairs
                 (zip ids (results_in_argument_order (length ids) log)) !! id
               = Some r).
  { subst ids. rewrite zip_with_app_l.
    rewrite (drop_S _ _ _ Hr). simpl.
    apply dict_of_pairs_last.
    intros Hc. apply list_elem_of_fmap in Hc as ([k v] & -> & Hc).
    by apply elem_of_zip_l in Hc. }
  split; [exact Hd | by apply items_with_key_lookup].
Qed.

Lemma query_models_parallel_last_position_witness :
  exists d st',
    query_models_parallel Examples.configs Examples.transport_counting
      Examples.utf8 Examples.exception_str [1; 0] (["a"] ++ "a" :: ["down"])
      Examples.msgs (Examples.start 0) = (inr d, st')
    /\ exists log r,
         completion_log Examples.configs Examples.transport_counting
           Examples.utf8 Examples.exception_str [1; 0]
           (["a"] ++ "a" :: ["down"]) Examples.msgs (Examples.start 0)
         = inr log
         /\ log.*1 ≡ₚ seq 0 (length (["a"] ++ "a" :: ["down"]))
         /\ (length ["a"], r) ∈ log
         /\ d !! "a" = Some r
         /\ items_with_key "a" d = [("a", r)].
Proof.
  eexists _, _. split; [reflexivity |].
  eapply (query_models_parallel_last_position Examples.configs
           Examples.transport_counting Examples.utf8 Examples.exception_str
           [1; 0] ["a"] "a" ["down"] Examples.msgs (Examples.start 0)).
  - intros Hin. apply list_elem_of_In in Hin. simpl in Hin.
    destruct Hin as [Heq | []]. discriminate Heq.
  - reflexivity.
Defined.

(** C9: for the empty list no coroutine is made, the state is left as it
    was (no request, no printed line) and the dict is empty. *)
Theorem query_models_parallel_empty {World} configs
    (transport : Request -> World -> PostOutcome * World)
    (stdout_encodes : Ascii.ascii -> bool)
    (exception_str : py_exception -> string)
    sched msgs (st : State World) :
  make_tasks [] msgs = []
  /\ query_models_parallel configs transport stdout_encodes exception_str
      sched [] msgs st = (inr ∅, st).
Proof. split; reflexivity. Qed.


(** * Further properties of the dispatcher *)

(** ** The registry and the resolved provider *)

Lemma registry_get_registered (configs : Registry) p c :
  (p, c) ∈ configs -> is_Some (registry_get p configs).
Proof.
  induction configs as [|[q c'] configs IH]; intros Hin.
  - by apply elem_of_nil in Hin.
  - simpl. destruct (String.eqb p q) eqn:Heq; [by eexists |].
    apply elem_of_cons in Hin as [[= -> ->] | Hin]; [| by apply IH].
    by rewrite String.eqb_refl in Heq.
Qed.

Lemma registry_get_elem (configs : Registry) p c :
  registry_get p configs = Some c -> (p, c) ∈ configs.
Proof.
  induction configs as [|[q c'] configs IH]; simpl; [done |].
  destruct (String.eqb p q) eqn:Heq.
  - apply String.eqb_eq in Heq as ->. intros [= ->]. apply elem_of_cons. by left.
  - intros H. apply elem_of_cons. right. by apply IH.
Qed.

(** The name the loop leaves is a key of the registry. *)
Lemma scan_providers_registered (configs : Registry) id p m :
  scan_providers configs id = (Some p, m) -> is_Some (registry_get p configs).
Proof.
  intros H. destruct (scan_providers_some _ _ _ _ H) as (c & Hin & _).
  by apply (registry_get_registered _ _ c).
Qed.



(** X2: in a registry that holds "openrouter", every identifier resolves
    to a registered provider: the unknown-provider return cannot be
    reached. *)
Theorem resolved_provider_registered (configs : Registry) (id : string) :
  is_Some (registry_get "openrouter" configs) ->
  is_Some (registry_get (resolve configs id).1 configs).
Proof.
  intros Hdef. unfold resolve.
  destruct (scan_providers configs id) as [[p|] m] eqn:Hscan; [| exact Hdef].
  destruct p as [|a p]; [exact Hdef |]. simpl.
  by apply (scan_providers_registered _ _ _ _ Hscan).
Qed.

Lemma resolved_provider_registered_witness :
  is_Some (registry_get (resolve Examples.configs "openai::gpt-4o").1
             Examples.configs).
Proof.
  apply (resolved_provider_registered Examples.configs "openai::gpt-4o").
  eexists. reflexivity.
Defined.

(** With the table of the module, whatever the keys and the URL are. *)
Lemma resolved_provider_in_PROVIDER_CONFIGS k1 u1 k2 k3 id :
  is_Some (registry_get (resolve (PROVIDER_CONFIGS k1 u1 k2 k3) id).1
             (PROVIDER_CONFIGS k1 u1 k2 k3)).
Proof.
  unfold resolve, PROVIDER_CONFIGS. simpl.
  destruct (startswith id "openrouter::"); [by eexists |].
  destruct (startswith id "deepseek::"); [by eexists |].
  destruct (startswith id "openai::"); by eexists.
Qed.

(** X3: resolution loses nothing of the identifier: the model name is the
    identifier itself, or what follows a registered prefix at its start. *)
Theorem resolve_model_name_suffix (configs : Registry) (id : string) :
  (resolve configs id).2 = id
  \/ exists q c, (q, c) ∈ configs
                 /\ id = model_prefix c +:+ (resolve configs id).2.
Proof.
  unfold resolve.
  destruct (scan_providers configs id) as [[p|] m] eqn:Hscan.
  - right. destruct (scan_providers_some _ _ _ _ Hscan) as (c & Hin & Hid).
    exists p, c. by destruct p.
  - left. revert Hscan. clear. induction configs as [|[q c] configs IH]; simpl.
    + by intros [= <-].
    + destruct (startswith id (model_prefix c)); [done | exact IH].
Qed.

Lemma can_write_app stdout_encodes (a b : string) :
  can_write stdout_encodes (a +:+ b)
  = can_write stdout_encodes a && can_write stdout_encodes b.
Proof.
  induction a as [|c a IH]; [done |].
  change (can_write stdout_encodes (String c (a +:+ b))
          = can_write
              stdout_encodes (String c a) && can_write stdout_encodes b).
  simpl. by rewrite IH, andb_assoc.
Qed.

(** The prefix "openrouter::" is ASCII: it does not change whether a line
    that names the identifier can be written. *)
Lemma can_write_openrouter_prefix stdout_encodes exception_str m :
  (can_write stdout_encodes
     (render exception_str (UnknownProvider ("openrouter::" +:+ m)))
   = can_write stdout_encodes (render exception_str (UnknownProvider m)))
  /\ (forall p,
        can_write stdout_encodes
          (render exception_str (KeyNotConfigured p ("openrouter::" +:+ m)))
        = can_write stdout_encodes
            (render exception_str (KeyNotConfigured p m)))
  /\ (forall p u e,
        can_write stdout_encodes
          (render exception_str (QueryFailed ("openrouter::" +:+ m) p u e))
        = can_write stdout_encodes
            (render exception_str (QueryFailed m p u e))).
Proof.
  repeat split; intros; unfold render; by rewrite !can_write_app.
Qed.

(** X4: with the table of the module, an identifier without any of the
    three prefixes and the same identifier behind "openrouter::" lead to the
    same request, hence to the same result and the same world. *)
Theorem unprefixed_is_openrouter {World} k1 u1 k2 k3
    (transport : Request -> World -> PostOutcome * World)
    (stdout_encodes : Ascii.ascii -> bool)
    (exception_str : py_exception -> string)
    (m : string) msgs t (st : State World) :
  startswith m "openrouter::" = false ->
  startswith m "deepseek::" = false ->
  startswith m "openai::" = false ->
  let configs := PROVIDER_CONFIGS k1 u1 k2 k3 in
  request_for configs m msgs t = request_for configs ("openrouter::" +:+ m) msgs t
  /\ (query_model configs transport stdout_encodes exception_str m msgs t st).1
     = (query_model configs transport stdout_encodes exception_str
         ("openrouter::" +:+ m) msgs t st).1
  /\ world (query_model configs transport stdout_encodes exception_str
      m msgs t st).2
     = world (query_model configs transport stdout_encodes exception_str
         ("openrouter::" +:+ m) msgs t st).2.
Proof.
  intros H1 H2 H3 configs.
  assert (Hr1 : resolve configs m = ("openrouter", m)).
  { unfold resolve, configs, PROVIDER_CONFIGS. simpl. by rewrite H1, H2, H3. }
  assert (Hr2 : resolve configs ("openrouter::" +:+ m) = ("openrouter", m)).
  { exact (proj1 (resolve_PROVIDER_CONFIGS k1 u1 k2 k3 m)). }
  assert (Hreq : request_for configs m msgs t
                 = request_for configs ("openrouter::" +:+ m) msgs t).
  { unfold request_for. by rewrite Hr1, Hr2. }
  split; [exact Hreq |].
  destruct (can_write_openrouter_prefix stdout_encodes exception_str m)
    as (Hw1 & Hw2 & Hw3).
  destruct (request_for configs m msgs t) as [req|] eqn:Hm; symmetry in Hreq.
  - destruct (transport req (world st)) as [o w] eqn:Ht.
    rewrite (query_model_with_request _ _ _ _ _ _ _ _ _ _ _ Hm Ht).
    rewrite (query_model_with_request _ _ _ _ _ _ _ _ _ _ _ Hreq Ht).
    destruct (process o) as [[e|n]|res]; [| done | done].
    unfold print_then_None. rewrite Hr1, Hr2, Hw3.
    case_match; by split.
  - rewrite (query_model_without_request_line _ _ _ _ _ _ _ st Hm).
    rewrite (query_model_without_request_line _ _ _ _ _ _ _ st Hreq).
    unfold line_without_request, print_then_None. rewrite Hr1, Hr2.
    cbn [fst].
    destruct (registry_get "openrouter" configs).
    + rewrite Hw2. case_match; by split.
    + rewrite Hw1. case_match; by split.
Qed.

Lemma unprefixed_is_openrouter_witness :
  request_for Examples.configs "gpt-4o" Examples.msgs default_timeout
  = request_for Examples.configs ("openrouter::" +:+ "gpt-4o") Examples.msgs
      default_timeout
  /\ (query_model Examples.configs Examples.transport_hi
      Examples.utf8 Examples.exception_str "gpt-4o" Examples.msgs
        default_timeout (Examples.start tt)).1
     = (query_model Examples.configs Examples.transport_hi
         Examples.utf8 Examples.exception_str
          ("openrouter::" +:+ "gpt-4o") Examples.msgs default_timeout
          (Examples.start tt)).1
  /\ world (query_model Examples.configs Examples.transport_hi
      Examples.utf8 Examples.exception_str "gpt-4o"
              Examples.msgs default_timeout (Examples.start tt)).2
     = world (query_model Examples.configs Examples.transport_hi
         Examples.utf8 Examples.exception_str
                ("openrouter::" +:+ "gpt-4o") Examples.msgs default_timeout
                (Examples.start tt)).2.
Proof.
  apply (unprefixed_is_openrouter (Some "sk-or")
           "https://openrouter.ai/api/v1/chat/completions" None (Some "sk-oa")
           Examples.transport_hi Examples.utf8 Examples.exception_str "gpt-4o"
           Examples.msgs default_timeout (Examples.start tt)); reflexivity.
Defined.

(** ** What one dispatch sends and prints *)

Lemma request_for_shape configs id msgs t req :
  request_for configs id msgs t = Some req ->
  exists cfg key,
    registry_get (resolve configs id).1 configs = Some cfg
    /\ api_key cfg = Some key /\ key <> ""
    /\ req = {| req_url := api_url cfg;
                req_headers :=
                  [ ("Authorization", header_auth_prefix cfg +:+ key);
                    ("Content-Type", "application/json") ];
                req_json := {| model := (resolve configs id).2;
                               messages := msgs |};
                req_timeout := t |}.
Proof.
  unfold request_for. destruct (resolve configs id) as [p m]. simpl.
  destruct (registry_get p configs) as [cfg|]; [| done].
  destruct (api_key cfg) as [[|a k]|] eqn:Hk; [done | | done].
  intros [= <-]. by exists cfg, (String a k).
Qed.

Lemma new_events_app {World} (st st' : State World) new :
  trace st' = trace st ++ new -> new_events st st' = new.
Proof. intros H. unfold new_events. rewrite H. apply drop_app_length. Qed.

(** The events of one dispatch: the request, if there is one to send, and
    one printed line exactly when the result is [None]. *)
Lemma query_model_new_events {World} configs
    (transport : Request -> World -> PostOutcome * World)
    (stdout_encodes : Ascii.ascii -> bool)
    (exception_str : py_exception -> string)
    id msgs t (st : State World) :
  exists prints,
    new_events st (query_model configs transport stdout_encodes exception_str
        id msgs t st).2
    = (EvPost <$> option_list (request_for configs id msgs t))
      ++ (EvPrint <$> prints)
    /\ length prints
       = match (query_model configs transport stdout_encodes exception_str
           id msgs t st).1 with
         | inr None => 1
         | _ => 0
         end.
Proof.
  destruct (request_for configs id msgs t) as [req|] eqn:Hreq.
  - destruct (transport req (world st)) as [o w] eqn:Ht.
    rewrite (query_model_with_request _ _ _ _ _ _ _ _ _ _ _ Hreq Ht).
    destruct (process o) as [[e|n]|[res|]] eqn:Hp; simpl.
    + unfold print_then_None. destruct (can_write _ _); simpl.
      * exists [QueryFailed id (resolve configs id).1 (req_url req) e].
        split; [| done]. apply new_events_app. simpl.
        by rewrite <- app_assoc.
      * exists []. split; [| done]. by apply new_events_app.
    + exists []. split; [| done]. by apply new_events_app.
    + exists []. split; [| done]. by apply new_events_app.
    + exfalso. destruct o as [r|resp]; [done |]. simpl in Hp.
      revert Hp. unfold normalize_response, and_then.
      repeat (match goal with
              | |- context [match ?x with inl _ => _ | inr _ => _ end] =>
                  destruct x
              end; try done).
  - destruct (query_model_without_request configs transport stdout_encodes
                exception_str _ _ _ st Hreq) as [d ->].
    unfold print_then_None. destruct (can_write _ _); simpl.
    + exists [d]. split; [| done]. by apply new_events_app.
    + exists []. split; [| done]. apply new_events_app. by rewrite app_nil_r.
Qed.

(** X5: a request that a dispatch sends goes to the URL of the resolved
    provider, carries that provider's own key behind its header prefix, the
    resolved model name, the messages as given and the timeout as given. *)
Theorem query_model_request_sent {World} configs
    (transport : Request -> World -> PostOutcome * World)
    (stdout_encodes : Ascii.ascii -> bool)
    (exception_str : py_exception -> string)
    id msgs t (st : State World) req :
  req ∈ posted (new_events st (query_model configs transport
      stdout_encodes exception_str id msgs t st).2) ->
  exists cfg key,
    registry_get (resolve configs id).1 configs = Some cfg
    /\ api_key cfg = Some key /\ key <> ""
    /\ req_url req = api_url cfg
    /\ req_headers req
       = [ ("Authorization", header_auth_prefix cfg +:+ key);
           ("Content-Type", "application/json") ]
    /\ req_json req = {| model := (resolve configs id).2; messages := msgs |}
    /\ req_timeout req = t.
Proof.
  destruct (query_model_new_events configs transport
      stdout_encodes exception_str id msgs t st)
    as (prints & -> & _).
  unfold posted. rewrite omap_app.
  intros Hin. apply elem_of_app in Hin as [Hin | Hin].
  - apply list_elem_of_omap in Hin as (ev & Hev & Hsome).
    apply list_elem_of_fmap in Hev as (req' & -> & Hreq'). injection Hsome as ->.
    destruct (request_for configs id msgs t) as [req0|] eqn:Hreq;
      [| by apply elem_of_nil in Hreq'].
    apply list_elem_of_singleton in Hreq' as ->.
    destruct (request_for_shape _ _ _ _ _ Hreq) as (cfg & key & ? & ? & ? & ->).
    by exists cfg, key.
  - apply list_elem_of_omap in Hin as (ev & Hev & Hsome).
    by apply list_elem_of_fmap in Hev as (d & -> & _).
Qed.

Lemma query_model_request_sent_witness :
  exists cfg key,
    registry_get (resolve Examples.configs "openai::gpt-4o").1 Examples.configs
    = Some cfg
    /\ api_key cfg = Some key /\ key <> ""
    /\ OPENAI_API_URL = api_url cfg
    /\ [ ("Authorization", "Bearer sk-oa"); ("Content-Type", "application/json") ]
       = [ ("Authorization", header_auth_prefix cfg +:+ key);
           ("Content-Type", "application/json") ]
    /\ {| model := "gpt-4o"; messages := Examples.msgs |}
       = {| model := (resolve Examples.configs "openai::gpt-4o").2;
            messages := Examples.msgs |}
    /\ default_timeout = default_timeout.
Proof.
  apply (query_model_request_sent Examples.configs Examples.transport_hi
      Examples.utf8 Examples.exception_str
           "openai::gpt-4o" Examples.msgs default_timeout (Examples.start tt)
           {| req_url := OPENAI_API_URL;
              req_headers := [ ("Authorization", "Bearer sk-oa");
                               ("Content-Type", "application/json") ];
              req_json := {| model := "gpt-4o"; messages := Examples.msgs |};
              req_timeout := default_timeout |}).
  apply list_elem_of_In. simpl. left. reflexivity.
Defined.

Lemma count_app (f : Event -> bool) (l k : list Event) :
  length (filter (fun ev => f ev = true) (l ++ k))
  = length (filter (fun ev => f ev = true) l)
    + length (filter (fun ev => f ev = true) k).
Proof. by rewrite filter_app, length_app. Qed.

Lemma count_posts_fmap_print (prints : list Diagnostic) :
  length (filter (fun ev => is_post ev = true) (EvPrint <$> prints)) = 0.
Proof. induction prints; [done | by rewrite fmap_cons, filter_cons_False]. Qed.

Lemma count_prints_fmap_print (prints : list Diagnostic) :
  length (filter (fun ev => is_print ev = true) (EvPrint <$> prints))
  = length prints.
Proof.
  induction prints as [|d prints IH]; [done |].
  rewrite fmap_cons, filter_cons_True by done. simpl. by rewrite IH.
Qed.

Lemma count_posts_fmap_post (reqs : list Request) :
  length (filter (fun ev => is_post ev = true) (EvPost <$> reqs)) = length reqs.
Proof.
  induction reqs as [|r reqs IH]; [done |].
  rewrite fmap_cons, filter_cons_True by done. simpl. by rewrite IH.
Qed.

Lemma count_prints_fmap_post (reqs : list Request) :
  length (filter (fun ev => is_print ev = true) (EvPost <$> reqs)) = 0.
Proof. induction reqs; [done | by rewrite fmap_cons, filter_cons_False]. Qed.

(** X6: one dispatch calls the transport at most once (there is no retry)
    and prints exactly one line when it returns [None], none otherwise. *)
Theorem query_model_counts {World} configs
    (transport : Request -> World -> PostOutcome * World)
    (stdout_encodes : Ascii.ascii -> bool)
    (exception_str : py_exception -> string)
    id msgs t (st : State World) :
  call_count (query_model configs transport stdout_encodes exception_str
      id msgs t st).2
  = call_count st + length (option_list (request_for configs id msgs t))
  /\ call_count (query_model configs transport stdout_encodes exception_str
      id msgs t st).2
     <= S (call_count st)
  /\ print_count (query_model configs transport stdout_encodes exception_str
      id msgs t st).2
     = print_count st
       + match (query_model configs transport stdout_encodes exception_str
           id msgs t st).1 with
         | inr None => 1
         | _ => 0
         end.
Proof.
  destruct (query_model_trace configs transport stdout_encodes exception_str
      id msgs t st)
    as (new & Htr & _).
  destruct (query_model_new_events configs transport
      stdout_encodes exception_str id msgs t st)
    as (prints & Hnew & Hlen).
  rewrite (new_events_app _ _ _ Htr) in Hnew. subst new.
  unfold call_count, print_count. rewrite Htr, !count_app.
  rewrite count_posts_fmap_post, count_posts_fmap_print.
  rewrite count_prints_fmap_post, count_prints_fmap_print, Hlen.
  split; [lia |]. split; [| lia].
  destruct (request_for configs id msgs t); simpl; lia.
Qed.

(** ** When a dispatch succeeds, and what it reports when it does not *)


Lemma normalize_response_some resp res :
  normalize_response resp = inr (Some res) ->
  exists data fields,
    is_success resp = true /\ body resp = Some data
    /\ (let? choices := getitem_str data "choices" in
        let? choice := getitem_int choices 0 in
        getitem_str choice "message") = inr (JObj fields)
    /\ res = {| content := default JNull (dict_lookup "content" fields);
                reasoning_details :=
                  default JNull (dict_lookup "reasoning_details" fields) |}.
Proof.
  unfold normalize_response, raise_for_status, response_json.
  destruct (is_success resp); simpl; [| done].
  destruct (body resp) as [data|]; simpl; [| done].
  destruct (getitem_str data "choices") as [r1|choices] eqn:H1; simpl;
    [done |].
  destruct (getitem_int choices 0) as [r2|choice] eqn:H2; simpl; [done |].
  destruct (getitem_str choice "message") as [r3|message] eqn:H3; simpl;
    [done |].
  destruct message; simpl; try done.
  intros Hres. exists data, fields. split; [done |]. split; [done |]. split.
  - rewrite H1. simpl. rewrite H2. simpl. exact H3.
  - by destruct (dict_lookup "content" fields),
                (dict_lookup "reasoning_details" fields); simplify_eq/=.
Qed.

(** X7: a dispatch returns a result only after a request was sent and
    answered with a 2xx status and a JSON body that holds an object at
    [choices[0].message]; the result is read off that object. *)
Theorem query_model_success_only_if {World} configs
    (transport : Request -> World -> PostOutcome * World)
    (stdout_encodes : Ascii.ascii -> bool)
    (exception_str : py_exception -> string)
    id msgs t (st : State World) res :
  (query_model configs transport stdout_encodes exception_str
      id msgs t st).1 = inr (Some res) ->
  exists req resp w data fields,
    request_for configs id msgs t = Some req
    /\ transport req (world st) = (PostReturns resp, w)
    /\ (200 <= status_code resp <= 299)%Z
    /\ body resp = Some data
    /\ (let? choices := getitem_str data "choices" in
        let? choice := getitem_int choices 0 in
        getitem_str choice "message") = inr (JObj fields)
    /\ res = {| content := default JNull (dict_lookup "content" fields);
                reasoning_details :=
                  default JNull (dict_lookup "reasoning_details" fields) |}
    /\ (query_model configs transport stdout_encodes exception_str
        id msgs t st).2 = after_post st req w.
Proof.
  destruct (request_for configs id msgs t) as [req|] eqn:Hreq.
  - destruct (transport req (world st)) as [o w] eqn:Ht.
    rewrite (query_model_with_request _ _ _ _ _ _ _ _ _ _ _ Hreq Ht).
    destruct (process o) as [[e|n]|res'] eqn:Hp; simpl; try done.
    { unfold print_then_None. by destruct (can_write _ _). }
    intros [= ->]. destruct o as [r|resp]; [done |]. simpl in Hp.
    destruct (normalize_response_some _ _ Hp)
      as (data & fields & Hs & Hb & Hm & Hres).
    exists req, resp, w, data, fields. repeat split; try done.
    + unfold is_success in Hs. apply andb_true_iff in Hs as [Hs _].
      by apply Z.leb_le.
    + unfold is_success in Hs. apply andb_true_iff in Hs as [_ Hs].
      by apply Z.leb_le.
  - destruct (query_model_without_request configs transport stdout_encodes
                exception_str _ _ _ st Hreq) as [d ->].
    unfold print_then_None. by destruct (can_write _ _).
Qed.

Lemma query_model_success_only_if_witness :
  exists req resp w data fields,
    request_for Examples.configs "openrouter::a" Examples.msgs default_timeout
    = Some req
    /\ Examples.transport_hi req (world (Examples.start tt))
       = (PostReturns resp, w)
    /\ (200 <= status_code resp <= 299)%Z
    /\ body resp = Some data
    /\ (let? choices := getitem_str data "choices" in
        let? choice := getitem_int choices 0 in
        getitem_str choice "message") = inr (JObj fields)
    /\ {| content := JStr "hi"; reasoning_details := JNull |}
       = {| content := default JNull (dict_lookup "content" fields);
            reasoning_details :=
              default JNull (dict_lookup "reasoning_details" fields) |}
    /\ (query_model Examples.configs Examples.transport_hi
        Examples.utf8 Examples.exception_str "openrouter::a"
          Examples.msgs default_timeout (Examples.start tt)).2
       = after_post (Examples.start tt) req w.
Proof.
  apply (query_model_success_only_if Examples.configs Examples.transport_hi
      Examples.utf8 Examples.exception_str
           "openrouter::a" Examples.msgs default_timeout (Examples.start tt)
           {| content := JStr "hi"; reasoning_details := JNull |}).
  reflexivity.
Defined.



(** X9: a signal that is not an [Exception] (a cancellation, say), raised
    while the request is in flight, is not caught: it leaves [query_model]
    as it is, and no line is printed. *)
Theorem query_model_propagates_BaseOnly {World} configs
    (transport : Request -> World -> PostOutcome * World)
    (stdout_encodes : Ascii.ascii -> bool)
    (exception_str : py_exception -> string)
    id msgs t (st : State World) req w n :
  request_for configs id msgs t = Some req ->
  transport req (world st) = (PostRaises (BaseOnly n), w) ->
  query_model configs transport stdout_encodes exception_str id msgs t st
  = (inl (BaseOnly n), after_post st req w)
  /\ print_count (query_model configs transport stdout_encodes exception_str
      id msgs t st).2
     = print_count st.
Proof.
  intros Hreq Ht.
  assert (Hq : query_model configs transport stdout_encodes exception_str
      id msgs t st
               = (inl (BaseOnly n), after_post st req w)).
  { by rewrite (query_model_with_request _ _ _ _ _ _ _ _ _ _ _ Hreq Ht). }
  split; [exact Hq |]. rewrite Hq. unfold print_count, after_post. simpl.
  by rewrite filter_app, length_app, Nat.add_0_r.
Qed.

Lemma query_model_propagates_BaseOnly_witness :
  query_model Examples.configs Examples.transport_cancelled
      Examples.utf8 Examples.exception_str "a" Examples.msgs
    default_timeout (Examples.start tt)
  = (inl (BaseOnly "CancelledError"),
     after_post (Examples.start tt)
       {| req_url := "https://openrouter.ai/api/v1/chat/completions";
          req_headers := [ ("Authorization", "Bearer sk-or");
                           ("Content-Type", "application/json") ];
          req_json := {| model := "a"; messages := Examples.msgs |};
          req_timeout := default_timeout |} tt)
  /\ print_count
       (query_model Examples.configs Examples.transport_cancelled
           Examples.utf8 Examples.exception_str "a"
          Examples.msgs default_timeout (Examples.start tt)).2
     = print_count (Examples.start tt).
Proof.
  apply (query_model_propagates_BaseOnly Examples.configs
           Examples.transport_cancelled Examples.utf8
           Examples.exception_str "a" Examples.msgs default_timeout
           (Examples.start tt)).
  - reflexivity.
  - reflexivity.
Defined.

(** ** What the fan-out sends, and where each value comes from *)

Section FanOutRuns.

Context {World : Type}.
Variable configs : Registry.
Variable transport : Request -> World -> PostOutcome * World.
Variable stdout_encodes : Ascii.ascii -> bool.
Variable exception_str : py_exception -> string.

Abbreviation query_model' :=
  (query_model configs transport stdout_encodes exception_str).
Abbreviation run_coroutine' :=
  (run_coroutine configs transport stdout_encodes exception_str).
Abbreviation run_to_completion' :=
  (run_to_completion configs transport stdout_encodes exception_str).
Abbreviation query_models_parallel' :=
  (query_models_parallel configs transport stdout_encodes exception_str).

Lemma omap_cons_option_list {A B} (f : A -> option B) x l :
  omap f (x :: l) = option_list (f x) ++ omap f l.
Proof. simpl. by destruct (f x). Qed.

Lemma posted_app l k : posted (l ++ k) = posted l ++ posted k.
Proof. apply omap_app. Qed.

Lemma posted_fmap_post reqs : posted (EvPost <$> reqs) = reqs.
Proof. induction reqs as [|r reqs IH]; [done |]. simpl. by f_equal. Qed.

Lemma posted_fmap_print prints : posted (EvPrint <$> prints) = [].
Proof. by induction prints. Qed.

Lemma query_model_posted id msgs t (st : State World) :
  exists new,
    trace (query_model' id msgs t st).2 = trace st ++ new
    /\ posted new = option_list (request_for configs id msgs t).
Proof.
  destruct (query_model_trace configs transport stdout_encodes exception_str
              id msgs t st) as (new & Htr & _).
  destruct (query_model_new_events configs transport stdout_encodes
              exception_str id msgs t st) as (prints & Hnew & _).
  rewrite (new_events_app _ _ _ Htr) in Hnew. exists new. split; [done |].
  by rewrite Hnew, posted_app, posted_fmap_post, posted_fmap_print, app_nil_r.
Qed.

(** Every pending task sends its request, whatever the tasks return or
    raise. *)
Lemma run_to_completion_posted n :
  forall sched pending log (st : State World),
    length pending = n ->
    exists new,
      trace (run_to_completion' n sched pending log st).2 = trace st ++ new
      /\ posted new ≡ₚ omap (request_of configs) pending.
Proof.
  induction n as [|n IH]; intros sched pending log st Hlen.
  - destruct pending; [| done]. exists []. simpl. by rewrite app_nil_r.
  - simpl. set (k := hd 0 sched `mod` length pending).
    assert (Hk : k < length pending).
    { subst k. apply Nat.mod_upper_bound. lia. }
    destruct (pending !! k) as [[i c]|] eqn:Hpk;
      [| apply lookup_ge_None_1 in Hpk; lia].
    unfold run_coroutine.
    destruct (query_model_posted (co_model_identifier c) (co_messages c)
                (co_timeout c) st) as (new1 & Htr1 & Hp1).
    assert (Hrest : forall log0 st1,
      trace st1 = trace st ++ new1 ->
      exists new,
        trace (run_to_completion' n (tl sched) (delete k pending) log0 st1).2
        = trace st ++ new
        /\ posted new ≡ₚ omap (request_of configs) pending).
    { intros log0 st1 Hst1.
      destruct (IH (tl sched) (delete k pending) log0 st1)
        as (new2 & Htr2 & Hp2).
      { rewrite length_delete by eauto. lia. }
      exists (new1 ++ new2). split.
      - by rewrite Htr2, Hst1, <- app_assoc.
      - rewrite posted_app, Hp1, Hp2.
        rewrite (delete_Permutation pending k (i, c)) at 2 by done.
        by rewrite omap_cons_option_list. }
    destruct (query_model' (co_model_identifier c) (co_messages c)
                (co_timeout c) st) as [[e|r] st1]; simpl in Htr1.
    + simpl. by apply Hrest.
    + by apply Hrest.
Qed.

Lemma omap_request_of_tasks ids msgs j :
  omap (request_of configs) (zip (seq j (length ids)) (make_tasks ids msgs))
  = omap (fun id => request_for configs id msgs default_timeout) ids.
Proof.
  revert j. induction ids as [|id ids IH]; intros j; [done |].
  change (omap (request_of configs)
            ((j, {| co_model_identifier := id; co_messages := msgs;
                    co_timeout := default_timeout |})
             :: zip (seq (S j) (length ids)) (make_tasks ids msgs))
          = omap (fun id => request_for configs id msgs default_timeout)
              (id :: ids)).
  by rewrite !omap_cons_option_list, IH.
Qed.

(** An entry of the completion log is what the coroutine at that position
    returned when it ran. *)
Lemma run_to_completion_log_sound n :
  forall sched pending log (st : State World) log' st',
    run_to_completion' n sched pending log st = (inr log', st') ->
    forall i r, (i, r) ∈ log' ->
      (i, r) ∈ log
      \/ exists c st0, (i, c) ∈ pending /\ (run_coroutine' c st0).1 = inr r.
Proof.
  induction n as [|n IH]; intros sched pending log st log' st' Hrun i r Hin.
  - simpl in Hrun. injection Hrun as <- _. by left.
  - simpl in Hrun. set (k := hd 0 sched `mod` length pending) in Hrun.
    destruct (pending !! k) as [[j c]|] eqn:Hpk.
    + destruct (run_coroutine' c st) as [[e|r1] st1] eqn:Hc; [done |].
      destruct (IH _ _ _ _ _ _ Hrun i r Hin) as [Hlog | (c' & st0 & Hc' & Hr)].
      * apply elem_of_app in Hlog as [Hlog | Hlog]; [by left |].
        apply list_elem_of_singleton in Hlog as [= -> ->].
        right. exists c, st. split; [by eapply list_elem_of_lookup_2 |].
        by rewrite Hc.
      * right. exists c', st0. split; [| done].
        by apply list_elem_of_delete_inv in Hc'.
    + injection Hrun as <- _. by left.
Qed.

Lemma elem_of_zip_tasks ids msgs j i c :
  (i, c) ∈ zip (seq j (length ids)) (make_tasks ids msgs) ->
  j <= i
  /\ exists id, ids !! (i - j) = Some id
                /\ c = {| co_model_identifier := id; co_messages := msgs;
                          co_timeout := default_timeout |}.
Proof.
  revert j. induction ids as [|id ids IH]; intros j Hin.
  - by apply elem_of_nil in Hin.
  - simpl in Hin. apply elem_of_cons in Hin as [[= -> ->] | Hin].
    + split; [lia |]. exists id. by rewrite Nat.sub_diag.
    + destruct (IH _ Hin) as (Hle & id' & Hl & ->). split; [lia |].
      exists id'. split; [| done].
      by replace (i - j) with (S (i - S j)) by lia.
Qed.

Lemma zip_tasks_elem_of ids msgs j id :
  id ∈ ids ->
  exists i,
    (i, {| co_model_identifier := id; co_messages := msgs;
           co_timeout := default_timeout |})
    ∈ zip (seq j (length ids)) (make_tasks ids msgs).
Proof.
  revert j. induction ids as [|id' ids IH]; intros j Hin.
  - by apply elem_of_nil in Hin.
  - apply elem_of_cons in Hin as [-> | Hin].
    + exists j. simpl. apply elem_of_cons. by left.
    + destruct (IH (S j) Hin) as [i Hi]. exists i. simpl.
      apply elem_of_cons. by right.
Qed.

(** In a returned dict, the value under an identifier of the list is what
    a dispatch of that identifier, with the shared messages and the default
    timeout, returned in some state of the run. *)
Lemma query_models_parallel_value sched ids msgs (st : State World) d st' id :
  query_models_parallel' sched ids msgs st = (inr d, st') ->
  id ∈ ids ->
  exists r st0,
    d !! id = Some r
    /\ (query_model' id msgs default_timeout st0).1 = inr r.
Proof.
  intros Hq Hid.
  apply list_elem_of_split_r in Hid as (pre & post & Hids & Hpost).
  destruct (query_models_parallel_inv _ _ _ _ _ _ _ _ _ _ Hq)
    as (log & Hrun & Hperm & ->).
  assert (Hlt : length pre < length ids).
  { rewrite Hids, length_app. simpl. lia. }
  assert (Hi : length pre ∈ log.*1).
  { rewrite Hperm. apply elem_of_seq. lia. }
  apply list_elem_of_fmap in Hi as ([i r] & Hi & Hin). simpl in Hi. subst i.
  assert (Hnd : NoDup log.*1) by (rewrite Hperm; apply NoDup_seq).
  pose proof (results_in_argument_order_lookup (length ids) log _ _ Hnd Hin Hlt)
    as Hr.
  destruct (run_to_completion_log_sound _ _ _ _ _ _ _ Hrun _ _ Hin)
    as [Hnil | (c & st0 & Hc & Hres)]; [by apply elem_of_nil in Hnil |].
  apply elem_of_zip_tasks in Hc as (_ & id' & Hl & ->).
  rewrite Nat.sub_0_r, Hids, list_lookup_middle in Hl by done.
  injection Hl as <-.
  exists r, st0. split; [| exact Hres].
  rewrite Hids at 1. rewrite zip_with_app_l.
  rewrite (drop_S _ _ _ Hr). simpl.
  apply dict_of_pairs_last.
  intros Hc. apply list_elem_of_fmap in Hc as ([k v] & -> & Hc).
  by apply elem_of_zip_l in Hc.
Qed.

(** With a stateless transport the result of a dispatch does not depend on
    the state it starts in. *)
Lemma query_model_stateless id msgs t (st st0 : State World) :
  stateless transport ->
  (query_model' id msgs t st0).1 = (query_model' id msgs t st).1.
Proof.
  intros Hsl. destruct (request_for configs id msgs t) as [req|] eqn:Hreq.
  - destruct (transport req (world st)) as [o w] eqn:Ht.
    destruct (transport req (world st0)) as [o0 w0] eqn:Ht0.
    pose proof (Hsl req (world st) (world st0)) as Ho.
    rewrite Ht, Ht0 in Ho. simpl in Ho. subst o0.
    rewrite (query_model_with_request _ _ _ _ _ _ _ _ _ _ _ Hreq Ht).
    rewrite (query_model_with_request _ _ _ _ _ _ _ _ _ _ _ Hreq Ht0).
    destruct (process o) as [[e|n]|res]; [| done | done].
    unfold print_then_None. by case_match.
  - destruct (query_model_without_request configs transport stdout_encodes
                exception_str _ _ _ st Hreq) as [d Hd].
    rewrite (query_model_without_request_line _ _ _ _ _ _ _ st Hreq).
    rewrite (query_model_without_request_line _ _ _ _ _ _ _ st0 Hreq).
    unfold print_then_None. by case_match.
Qed.

(** With a stateless transport that raises nothing outside [Exception], a
    wait with a pending task that raises ends with the [UnicodeEncodeError]
    of a [print], whichever task raises first. *)
Lemma run_to_completion_raises n :
  raises_only_Exception transport ->
  stateless transport ->
  forall sched pending log (st : State World),
    length pending = n ->
    (exists p st0 r, p ∈ pending /\ (run_coroutine' p.2 st0).1 = inl r) ->
    (run_to_completion' n sched pending log st).1
    = inl (Exc UnicodeEncodeError).
Proof.
  intros Hex Hsl. induction n as [|n IH];
    intros sched pending log st Hlen (p & st0 & r & Hp & Hr).
  - destruct pending; [| done]. by apply elem_of_nil in Hp.
  - simpl. set (k := hd 0 sched `mod` length pending).
    assert (Hk : k < length pending).
    { subst k. apply Nat.mod_upper_bound. lia. }
    destruct (pending !! k) as [[i c]|] eqn:Hpk;
      [| apply lookup_ge_None_1 in Hpk; lia].
    destruct (run_coroutine' c st) as [[e|r1] st1] eqn:Hc.
    + simpl. f_equal.
      apply (query_model_raises_from_print configs transport stdout_encodes
               exception_str (co_model_identifier c) (co_messages c)
               (co_timeout c) st e Hex).
      unfold run_coroutine in Hc. by rewrite Hc.
    + apply IH; [rewrite length_delete by eauto; lia |].
      exists p, st0, r. split; [| done].
      rewrite (delete_Permutation pending k (i, c)) in Hp by done.
      apply elem_of_cons in Hp as [-> | Hp]; [| done].
      exfalso. simpl in Hr. unfold run_coroutine in Hr, Hc.
      rewrite (query_model_stateless _ _ _ st st0 Hsl), Hc in Hr. done.
Qed.

End FanOutRuns.

Lemma request_for_missing_key configs id msgs t cfg :
  registry_get (resolve configs id).1 configs = Some cfg ->
  api_key cfg = None \/ api_key cfg = Some "" ->
  request_for configs id msgs t = None.
Proof.
  intros Hcfg Hkey. unfold request_for.
  destruct (resolve configs id) as [p m]. simpl in Hcfg. rewrite Hcfg.
  by destruct Hkey as [-> | ->].
Qed.

(** X10: the fan-out sends one request for each occurrence of an
    identifier whose provider has a key, duplicates included, and nothing
    else: up to the order of sending, the requests are those of the
    identifiers taken one by one with the default timeout. *)
Theorem query_models_parallel_requests {World} configs
    (transport : Request -> World -> PostOutcome * World)
    (stdout_encodes : Ascii.ascii -> bool)
    (exception_str : py_exception -> string)
    sched ids msgs (st : State World) :
  raises_only_Exception transport ->
  posted (new_events st
            (query_models_parallel configs transport stdout_encodes
               exception_str sched ids msgs st).2)
  ≡ₚ omap (fun id => request_for configs id msgs default_timeout) ids.
Proof.
  intros _. unfold query_models_parallel, gather, bind.
  set (tasks := make_tasks ids msgs).
  destruct (run_to_completion_posted configs transport stdout_encodes
              exception_str (length tasks) sched
              (zip (seq 0 (length tasks)) tasks) [] st)
    as (new & Htr & Hp).
  { by rewrite length_zip, length_seq, Nat.min_id. }
  subst tasks. rewrite make_tasks_length in Hp, Htr |- *.
  rewrite omap_request_of_tasks in Hp. rewrite <- Hp.
  destruct (run_to_completion configs transport stdout_encodes exception_str
              (length ids) sched
              (zip (seq 0 (length ids)) (make_tasks ids msgs)) [] st)
    as [[r|log] st'] eqn:Hrun; simpl in *; by rewrite (new_events_app _ _ _ Htr).
Qed.

Lemma query_models_parallel_requests_witness :
  posted (new_events (Examples.start 0)
            (query_models_parallel Examples.configs Examples.transport_counting
               Examples.utf8 Examples.exception_str
               [1; 0] ["a"; "a"; "deepseek::b"] Examples.msgs
               (Examples.start 0)).2)
  ≡ₚ omap (fun id => request_for Examples.configs id Examples.msgs
                       default_timeout)
          ["a"; "a"; "deepseek::b"].
Proof.
  apply (query_models_parallel_requests Examples.configs
           Examples.transport_counting Examples.utf8 Examples.exception_str
           [1; 0] ["a"; "a"; "deepseek::b"]
           Examples.msgs (Examples.start 0)).
  intros req w r w'. unfold Examples.transport_counting.
  destruct (String.eqb _ _); intros [= <- _]; reflexivity.
Defined.

(** X11: in a dict that the fan-out returns, an identifier whose provider
    has no key maps to [None], whatever the other identifiers, the transport
    and the completion order are. *)
Theorem query_models_parallel_missing_key {World} configs
    (transport : Request -> World -> PostOutcome * World)
    (stdout_encodes : Ascii.ascii -> bool)
    (exception_str : py_exception -> string)
    sched ids msgs (st : State World) d st' id cfg :
  query_models_parallel configs transport stdout_encodes exception_str sched
    ids msgs st = (inr d, st') ->
  id ∈ ids ->
  registry_get (resolve configs id).1 configs = Some cfg ->
  api_key cfg = None \/ api_key cfg = Some "" ->
  d !! id = Some None.
Proof.
  intros Hq Hid Hcfg Hkey.
  destruct (query_models_parallel_value configs transport stdout_encodes
              exception_str sched ids msgs st d st' id Hq Hid)
    as (r & st0 & Hd & Hr).
  pose proof (request_for_missing_key _ _ msgs default_timeout _ Hcfg Hkey)
    as Hreq.
  destruct (query_model_without_request configs transport stdout_encodes
              exception_str _ _ _ st0 Hreq) as [diag Hnone].
  rewrite Hnone in Hr. unfold print_then_None in Hr.
  destruct (can_write _ _); [| done]. simpl in Hr. by injection Hr as <-.
Qed.

Lemma query_models_parallel_missing_key_witness :
  exists d st',
    query_models_parallel Examples.configs Examples.transport_counting
      Examples.utf8 Examples.exception_str [1; 0] ["a"; "deepseek::b"]
      Examples.msgs (Examples.start 0) = (inr d, st')
    /\ d !! "deepseek::b" = Some None.
Proof.
  eexists _, _. split; [reflexivity |].
  eapply (query_models_parallel_missing_key Examples.configs
            Examples.transport_counting Examples.utf8 Examples.exception_str
            [1; 0] ["a"; "deepseek::b"] Examples.msgs (Examples.start 0)
            _ _ "deepseek::b"
            {| api_key := None; api_url := DEEPSEEK_API_URL;
               model_prefix := "deepseek::"; header_auth_prefix := "Bearer " |}).
  - reflexivity.
  - apply list_elem_of_In. simpl. right. left. reflexivity.
  - reflexivity.
  - left. reflexivity.
Defined.

(** X12: when the transport's answer depends on the request alone, a
    dict that the fan-out returns is the single dispatch taken pointwise:
    the value under an identifier is what [query_model] returns for it, with
    the same messages and the default timeout. *)
Theorem query_models_parallel_pointwise {World} configs
    (transport : Request -> World -> PostOutcome * World)
    (stdout_encodes : Ascii.ascii -> bool)
    (exception_str : py_exception -> string)
    sched ids msgs (st : State World) d st' id :
  stateless transport ->
  query_models_parallel configs transport stdout_encodes exception_str sched
    ids msgs st = (inr d, st') ->
  id ∈ ids ->
  exists r,
    d !! id = Some r
    /\ (query_model configs transport stdout_encodes exception_str id msgs
          default_timeout st).1 = inr r.
Proof.
  intros Hsl Hq Hid.
  destruct (query_models_parallel_value configs transport stdout_encodes
              exception_str sched ids msgs st d st' id Hq Hid)
    as (r & st0 & Hd & Hr).
  exists r. split; [done |].
  by rewrite <- (query_model_stateless configs transport stdout_encodes
                   exception_str id msgs default_timeout st st0 Hsl).
Qed.

Lemma query_models_parallel_pointwise_witness :
  exists d st',
    query_models_parallel Examples.configs Examples.transport_by_model
      Examples.utf8 Examples.exception_str [1; 0] ["a"; "down"; "a"]
      Examples.msgs (Examples.start tt) = (inr d, st')
    /\ exists r,
         d !! "down" = Some r
         /\ (query_model Examples.configs Examples.transport_by_model
               Examples.utf8 Examples.exception_str "down" Examples.msgs
               default_timeout (Examples.start tt)).1 = inr r.
Proof.
  eexists _, _. split; [reflexivity |].
  eapply (query_models_parallel_pointwise Examples.configs
            Examples.transport_by_model Examples.utf8 Examples.exception_str
            [1; 0] ["a"; "down"; "a"] Examples.msgs (Examples.start tt)).
  - intros req [] []. reflexivity.
  - reflexivity.
  - apply list_elem_of_In. simpl. right. left. reflexivity.
Defined.

(** X13: when the transport's answer depends on the request alone, the
    dict does not depend on the completion order, nor on the state the
    fan-out starts in. *)
Theorem query_models_parallel_schedule_independent {World} configs
    (transport : Request -> World -> PostOutcome * World)
    (stdout_encodes : Ascii.ascii -> bool)
    (exception_str : py_exception -> string)
    ids msgs sched1 sched2 (st1 st2 : State World) :
  raises_only_Exception transport ->
  stateless transport ->
  (query_models_parallel configs transport stdout_encodes exception_str
     sched1 ids msgs st1).1
  = (query_models_parallel configs transport stdout_encodes exception_str
       sched2 ids msgs st2).1.
Proof.
  intros Hex Hsl.
  set (raises id :=
         match (query_model configs transport stdout_encodes exception_str id
                  msgs default_timeout st1).1 with
         | inl _ => true
         | inr _ => false
         end).
  destruct (decide (Exists (fun id => raises id = true) ids)) as [Hsome | Hnone].
  - apply Exists_exists in Hsome as (id & Hid & Hraises).
    assert (Hr : exists r,
      (query_model configs transport stdout_encodes exception_str id msgs
         default_timeout st1).1 = inl r).
    { unfold raises in Hraises.
      destruct (query_model _ _ _ _ id msgs default_timeout st1).1; by eauto. }
    destruct Hr as [r Hr].
    assert (Hrun : forall sched (st : State World),
      (query_models_parallel configs transport stdout_encodes exception_str
         sched ids msgs st).1 = inl (Exc UnicodeEncodeError)).
    { intros sched st. unfold query_models_parallel, gather, bind.
      assert (Hraise :
        (run_to_completion configs transport stdout_encodes exception_str
           (length (make_tasks ids msgs)) sched
           (zip (seq 0 (length (make_tasks ids msgs))) (make_tasks ids msgs))
           [] st).1 = inl (Exc UnicodeEncodeError)).
      { apply run_to_completion_raises; try done.
        - by rewrite length_zip, length_seq, Nat.min_id.
        - rewrite make_tasks_length.
          destruct (zip_tasks_elem_of ids msgs 0 id Hid) as [i Hi].
          by exists (i, {| co_model_identifier := id; co_messages := msgs;
                           co_timeout := default_timeout |}), st1, r. }
      destruct (run_to_completion _ _ _ _ _ _ _ _ _) as [[e|log] st'];
        simpl in *; [by injection Hraise as -> | discriminate Hraise]. }
    by rewrite !Hrun.
  - apply not_Exists_Forall in Hnone; [| intros id; apply _].
    assert (Hret : forall id (st0 : State World), id ∈ ids ->
      exists r st',
        query_model configs transport stdout_encodes exception_str id msgs
          default_timeout st0 = (inr r, st')).
    { intros id st0 Hid.
      pose proof (proj1 (Forall_forall _ _) Hnone id Hid) as Hno.
      simpl in Hno. unfold raises in Hno.
      rewrite <- (query_model_stateless configs transport stdout_encodes
                    exception_str id msgs default_timeout st1 st0 Hsl) in Hno.
      destruct (query_model _ _ _ _ id msgs default_timeout st0)
        as [[e|r] st']; [done | by eauto]. }
    destruct (query_models_parallel_returns configs transport stdout_encodes
                exception_str sched1 ids msgs st1 Hret) as (d1 & st1' & Hq1).
    destruct (query_models_parallel_returns configs transport stdout_encodes
                exception_str sched2 ids msgs st2 Hret) as (d2 & st2' & Hq2).
    rewrite Hq1, Hq2. simpl. f_equal. apply map_eq. intros k.
    destruct (decide (k ∈ ids)) as [Hk | Hk].
    + destruct (query_models_parallel_value configs transport stdout_encodes
                  exception_str sched1 ids msgs st1 d1 st1' k Hq1 Hk)
        as (r1 & s1 & Hl1 & Hr1).
      destruct (query_models_parallel_value configs transport stdout_encodes
                  exception_str sched2 ids msgs st2 d2 st2' k Hq2 Hk)
        as (r2 & s2 & Hl2 & Hr2).
      rewrite (query_model_stateless configs transport stdout_encodes
                 exception_str k msgs default_timeout s2 s1 Hsl) in Hr1.
      rewrite Hr1 in Hr2. injection Hr2 as ->. by rewrite Hl1, Hl2.
    + pose proof (query_models_parallel_keys_of_result _ _ _ _ _ _ _ _ _ _ Hq1)
        as Hd1.
      pose proof (query_models_parallel_keys_of_result _ _ _ _ _ _ _ _ _ _ Hq2)
        as Hd2.
      assert (d1 !! k = None) as ->.
      { apply not_elem_of_dom. rewrite Hd1. by rewrite elem_of_list_to_set. }
      symmetry. apply not_elem_of_dom. rewrite Hd2.
      by rewrite elem_of_list_to_set.
Qed.

Lemma query_models_parallel_schedule_independent_witness :
  (query_models_parallel Examples.configs Examples.transport_by_model
     Examples.utf8 Examples.exception_str [2; 0; 0]
     ["a"; "down"; "a"] Examples.msgs (Examples.start tt)).1
  = (query_models_parallel Examples.configs Examples.transport_by_model
       Examples.utf8 Examples.exception_str []
       ["a"; "down"; "a"] Examples.msgs (Examples.start tt)).1.
Proof.
  apply (query_models_parallel_schedule_independent Examples.configs
           Examples.transport_by_model Examples.utf8 Examples.exception_str
           ["a"; "down"; "a"] Examples.msgs
           [2; 0; 0] [] (Examples.start tt) (Examples.start tt)).
  - intros req w r w'. unfold Examples.transport_by_model.
    destruct (String.eqb _ _); intros [= <- _]; reflexivity.
  - intros req [] []. reflexivity.
Defined.

(** X14: a dict that the fan-out returns has as many entries as the list
    has distinct identifiers. *)
Theorem query_models_parallel_size {World} configs
    (transport : Request -> World -> PostOutcome * World)
    (stdout_encodes : Ascii.ascii -> bool)
    (exception_str : py_exception -> string)
    sched (ids : list string) msgs (st : State World) d st' :
  query_models_parallel configs transport stdout_encodes exception_str sched
    ids msgs st = (inr d, st') ->
  size d = length (remove_dups ids).
Proof.
  intros Hq.
  pose proof (query_models_parallel_keys_of_result _ _ _ _ _ _ _ _ _ _ Hq)
    as Hd.
  rewrite <- size_dom, Hd.
  rewrite <- (size_list_to_set (C := gset string) (remove_dups ids))
    by apply NoDup_remove_dups.
  f_equal. apply set_eq. intros k.
  by rewrite !elem_of_list_to_set, elem_of_remove_dups.
Qed.

Lemma query_models_parallel_size_witness :
  exists d st',
    query_models_parallel Examples.configs Examples.transport_counting
      Examples.utf8 Examples.exception_str [1; 0] ["a"; "down"; "a"]
      Examples.msgs (Examples.start 0) = (inr d, st')
    /\ size d = length (remove_dups ["a"; "down"; "a"]).
Proof.
  eexists _, _. split; [reflexivity |].
  eapply (query_models_parallel_size Examples.configs
            Examples.transport_counting Examples.utf8 Examples.exception_str
            [1; 0] ["a"; "down"; "a"] Examples.msgs (Examples.start 0)).
  reflexivity.
Defined.

(** ** Bodies of an unexpected shape, and the lines the fan-out prints *)





Lemma query_model_print_count {World} configs
    (transport : Request -> World -> PostOutcome * World)
    (stdout_encodes : Ascii.ascii -> bool)
    (exception_str : py_exception -> string)
    id msgs t (st : State World) :
  print_count
    (query_model configs transport stdout_encodes exception_str id msgs t st).2
  = print_count st
    + match (query_model configs transport stdout_encodes exception_str id
               msgs t st).1 with
      | inr None => 1
      | _ => 0
      end.
Proof.
  destruct (query_model_trace configs transport stdout_encodes exception_str
              id msgs t st) as (new & Htr & _).
  destruct (query_model_new_events configs transport stdout_encodes
              exception_str id msgs t st) as (prints & Hnew & Hlen).
  rewrite (new_events_app _ _ _ Htr) in Hnew. subst new.
  unfold print_count. rewrite Htr, !count_app.
  rewrite count_prints_fmap_post, count_prints_fmap_print, Hlen. lia.
Qed.

Lemma failures_snoc log i r :
  failures (log ++ [(i, r)])
  = failures log + match r with None => 1 | Some _ => 0 end.
Proof.
  unfold failures. rewrite filter_app, length_app. f_equal.
  destruct r; [by rewrite filter_cons_False | by rewrite filter_cons_True].
Qed.

(** A wait that returns has printed one line for each [None] it logged. *)
Lemma run_to_completion_prints {World} configs
    (transport : Request -> World -> PostOutcome * World)
    (stdout_encodes : Ascii.ascii -> bool)
    (exception_str : py_exception -> string) n :
  forall sched pending log (st : State World) log' st',
    run_to_completion configs transport stdout_encodes exception_str n sched
      pending log st = (inr log', st') ->
    print_count st' + failures log = print_count st + failures log'.
Proof.
  induction n as [|n IH]; intros sched pending log st log' st' Hrun.
  - simpl in Hrun. by injection Hrun as <- <-.
  - simpl in Hrun. set (k := hd 0 sched `mod` length pending) in Hrun.
    destruct (pending !! k) as [[i c]|] eqn:Hpk;
      [| by injection Hrun as <- <-].
    unfold run_coroutine in Hrun.
    pose proof (query_model_print_count configs transport stdout_encodes
                  exception_str (co_model_identifier c) (co_messages c)
                  (co_timeout c) st) as Hpc.
    destruct (query_model configs transport stdout_encodes exception_str
                (co_model_identifier c) (co_messages c) (co_timeout c) st)
      as [[e|r] st1]; [done |].
    simpl in Hpc. apply IH in Hrun. rewrite failures_snoc in Hrun.
    destruct r; lia.
Qed.

(** X17: when the fan-out returns a dict, it has printed one line for each
    dispatch that returned [None], and no other line. *)
Theorem query_models_parallel_reports {World} configs
    (transport : Request -> World -> PostOutcome * World)
    (stdout_encodes : Ascii.ascii -> bool)
    (exception_str : py_exception -> string)
    sched ids msgs (st : State World) d st' :
  query_models_parallel configs transport stdout_encodes exception_str sched
    ids msgs st = (inr d, st') ->
  exists log,
    completion_log configs transport stdout_encodes exception_str sched ids
      msgs st = inr log
    /\ print_count st' = print_count st + failures log.
Proof.
  intros Hq.
  destruct (query_models_parallel_inv _ _ _ _ _ _ _ _ _ _ Hq)
    as (log & Hrun & _ & _).
  exists log. split.
  - unfold completion_log. by rewrite make_tasks_length, Hrun.
  - apply run_to_completion_prints in Hrun.
    unfold failures in Hrun at 1. simpl in Hrun. lia.
Qed.

Lemma query_models_parallel_reports_witness :
  exists d st',
    query_models_parallel Examples.configs Examples.transport_counting
      Examples.utf8 Examples.exception_str [1; 0]
      ["a"; "down"; "deepseek::b"] Examples.msgs (Examples.start 0)
    = (inr d, st')
    /\ exists log,
         completion_log Examples.configs Examples.transport_counting
           Examples.utf8 Examples.exception_str [1; 0]
           ["a"; "down"; "deepseek::b"] Examples.msgs (Examples.start 0)
         = inr log
         /\ print_count st' = print_count (Examples.start 0) + failures log.
Proof.
  eexists _, _. split; [reflexivity |].
  eapply (query_models_parallel_reports Examples.configs
            Examples.transport_counting Examples.utf8 Examples.exception_str
            [1; 0] ["a"; "down"; "deepseek::b"] Examples.msgs
            (Examples.start 0)).
  reflexivity.
Defined.
